(** * ollama-mcp-ts: the MCP command-line client of [src/index.ts]

    A shallow embedding of the class [MCPClient] ([connectToServer],
    [processQuery], [chatLoop], [cleanup]) and the properties of its
    tool-calling conversation loop.

    The client talks to three collaborators: the MCP SDK client ([mcp]),
    the Ollama chat client ([ollama]) and the readline interface ([rl]).
    Every call to one of them is recorded, in program order, in an event
    log; what a collaborator answers is a function of the log up to and
    including the request.  Exceptions are a result of their own
    ([Throw]), and so is an [await] that never settles ([Pending]). *)

From Stdlib Require Import String Ascii List Arith Lia Bool DecimalString.
Import ListNotations.
Open Scope string_scope.

(** ** The JavaScript built-ins the client uses *)

Module Js.

(** A value that is a string or [undefined]. *)
Definition value := option string.

(** [ToString] as [Array.prototype.join] applies it: [undefined] (and
    [null]) become the empty string. *)
Definition join_element (element : value) : string :=
  match element with
  | Some s => s
  | None => ""
  end.

(** [Array.prototype.join ( separator )]: the loop of the language
    definition, with [R] the text built so far and [k] the index. *)
Fixpoint join_loop (sep : string) (R : string) (k : nat) (O : list value)
  : string :=
  match O with
  | [] => R
  | element :: rest =>
      let R1 := if (0 <? k)%nat then R ++ sep else R in
      join_loop sep (R1 ++ join_element element) (S k) rest
  end.

Definition Array_join (O : list value) (sep : string) : string :=
  join_loop sep "" 0 O.

(** A value substituted in a template literal: [undefined] reads
    "undefined". *)
Definition template (v : value) : string :=
  match v with
  | Some s => s
  | None => "undefined"
  end.

(** [ToBoolean] on a string or [undefined]. *)
Definition truthy (v : value) : bool :=
  match v with
  | Some s => negb (s =? "")
  | None => false
  end.

(** [String.prototype.endsWith ( searchString )]. *)
Definition endsWith (s searchString : string) : bool :=
  let len := String.length s in
  let searchLength := String.length searchString in
  if (len <? searchLength)%nat then false
  else substring (len - searchLength) searchLength s =? searchString.

(** [String.prototype.toLowerCase] on the code units 'A'..'Z', which
    map to 'a'..'z'; the other code units are left as they are.  The
    client only compares the result with "quit", and a string with a
    code unit outside ASCII never has that lower-case form, so the
    comparison is the one of the language. *)
Definition lower_ascii (c : ascii) : ascii :=
  let n := nat_of_ascii c in
  if ((65 <=? n) && (n <=? 90))%nat then ascii_of_nat (n + 32) else c.

Fixpoint toLowerCase (s : string) : string :=
  match s with
  | EmptyString => EmptyString
  | String c rest => String (lower_ascii c) (toLowerCase rest)
  end.

(** [a || b] on strings read from the environment. *)
Definition or_default (v : value) (default : string) : string :=
  if truthy v then join_element v else default.

End Js.

(** ** Results and exceptions *)

Inductive Exn : Type :=
| Error (message : string)
| TypeError (message : string).

Inductive Res (A : Type) : Type :=
| Ok (a : A)
| Throw (e : Exn)
| Pending.

Arguments Ok {A} a.
Arguments Throw {A} e.
Arguments Pending {A}.

(** What [rl.question] does once the lines of the input are used up: its
    promise is rejected (readline was closed), or it never settles. *)
Inductive EndOfInput : Type :=
| Rejects (e : Exn)
| NeverSettles.

(** ** The data model *)

(** [Message] of the chat client. *)
Record Message : Type := { role : string; content : string }.

(** One element of [result.content]; the code reads it as [any]. *)
Record Resource : Type := { data : Js.value }.

Record ContentItem : Type := {
  type : string;
  text : Js.value;
  resource : option Resource
}.

Record CallToolResult : Type := { result_content : list ContentItem }.

Record StdioClientTransport : Type := {
  command : string;
  args : list string
}.

Inductive LogArg : Type :=
| LogStr (s : string)
| LogNames (names : list string)
| LogExn (e : Exn).

Section Client.

(** The untyped argument mapping of a tool call, and the schema
    properties of a tool: the client passes both through unread. *)
Context {Args Props : Type}.

Record ToolCallFunction : Type := {
  name : string;
  arguments : Args
}.

Record ToolCall : Type := { function : ToolCallFunction }.

(** [response.message]: [content] and [tool_calls] may be missing. *)
Record ResponseMessage : Type := {
  message_content : Js.value;
  tool_calls : option (list ToolCall)
}.

Record ChatResponse : Type := { message : ResponseMessage }.

(** [Tool] of the chat client. *)
Record ToolFunction : Type := {
  tool_name : string;
  description : Js.value;
  parameters : option Props
}.

Record Tool : Type := {
  tool_type : string;
  tool_function : ToolFunction
}.

(** A tool as [listTools] advertises it. *)
Record InputSchema : Type := { properties : option Props }.

Record McpTool : Type := {
  mcp_name : string;
  mcp_description : Js.value;
  inputSchema : InputSchema
}.

(** The argument of [ollama.chat], with the message array as it is when
    the call is made; [req_tools] is [None] when the request has no
    [tools] key. *)
Record ChatRequest : Type := {
  req_model : string;
  req_messages : list Message;
  req_stream : bool;
  req_tools : option (list Tool)
}.

(** The private fields of [MCPClient] ([mcp] and [ollama] are the
    collaborators). *)
Record MCPClient : Type := {
  transport : option StdioClientTransport;
  tools : list Tool
}.

(** The calls the client makes on its collaborators. *)
Inductive Event : Type :=
| EvConnect (t : StdioClientTransport)
| EvListTools
| EvCallTool (tool : string) (arguments : Args)
| EvChat (req : ChatRequest)
| EvConsoleLog (line : list LogArg)
| EvCreateInterface
| EvQuestion (prompt : string)
| EvRlClose
| EvMcpClose.

(** What surrounds the client: the process, [JSON.stringify], the
    answers of the collaborators, and the end of the input. *)
Record Runtime : Type := {
  platform : string;
  execPath : string;
  env_OLLAMA_MODEL : Js.value;
  JSON_stringify : Args -> Js.value;
  listTools_reply : list Event -> Res (list McpTool);
  callTool_reply : list Event -> Res CallToolResult;
  chat_reply : list Event -> Res ChatResponse;
  at_end_of_input : EndOfInput
}.

Record World : Type := { this : MCPClient; log : list Event }.

(** *** The monad of the client's methods *)

Definition M (A : Type) : Type := World -> Res A * World.

Definition ret {A} (a : A) : M A := fun w => (Ok a, w).

Definition bind {A B} (c : M A) (k : A -> M B) : M B :=
  fun w =>
    match c w with
    | (Ok a, w1) => k a w1
    | (Throw e, w1) => (Throw e, w1)
    | (Pending, w1) => (Pending, w1)
    end.

Definition throw {A} (e : Exn) : M A := fun w => (Throw e, w).

Definition try_catch {A} (c : M A) (handler : Exn -> M A) : M A :=
  fun w =>
    match c w with
    | (Throw e, w1) => handler e w1
    | r => r
    end.

Definition try_finally {A} (c : M A) (finalizer : M unit) : M A :=
  fun w =>
    match c w with
    | (Pending, w1) => (Pending, w1)
    | (r, w1) =>
        match finalizer w1 with
        | (Ok _, w2) => (r, w2)
        | (Throw e, w2) => (Throw e, w2)
        | (Pending, w2) => (Pending, w2)
        end
    end.

Definition emit (e : Event) : M unit :=
  fun w => (Ok tt, {| this := this w; log := log w ++ [e] |}).

(** A request to a collaborator: logged, then answered from the log. *)
Definition request {A} (e : Event) (reply : list Event -> Res A) : M A :=
  fun w =>
    let w1 := {| this := this w; log := log w ++ [e] |} in
    (reply (log w1), w1).

Definition get_this : M MCPClient := fun w => (Ok (this w), w).

Definition set_this (c : MCPClient) : M unit :=
  fun w => (Ok tt, {| this := c; log := log w |}).

End Client.

Arguments ToolCallFunction : clear implicits.
Arguments ToolCall : clear implicits.
Arguments ResponseMessage : clear implicits.
Arguments ChatResponse : clear implicits.
Arguments ToolFunction : clear implicits.
Arguments Tool : clear implicits.
Arguments InputSchema : clear implicits.
Arguments McpTool : clear implicits.
Arguments ChatRequest : clear implicits.
Arguments MCPClient : clear implicits.
Arguments Event : clear implicits.
Arguments Runtime : clear implicits.
Arguments World : clear implicits.
Arguments M : clear implicits.

Declare Scope client_scope.
Delimit Scope client_scope with client.

Notation "x <- c ;; k" := (bind c (fun x => k))
  (at level 61, c at next level, right associativity) : client_scope.
Notation "c ;; k" := (bind c (fun _ => k))
  (at level 61, right associativity) : client_scope.

Open Scope client_scope.

(** A result computed without a collaborator. *)
Definition lift {Args Props A} (r : Res A) : M Args Props A :=
  fun w => (r, w).

(** The line feed, and the two separators the client joins with. *)
Definition LF : string := String (ascii_of_nat 10) EmptyString.
Definition blank_line : string := LF ++ LF.

(** ** Flattening a tool result (lines 92-103) *)

(** [Array.prototype.map] with a callback that may throw: the elements
    are visited in order and the first exception ends the call. *)
Fixpoint Array_map {A B} (callback : A -> Res B) (l : list A)
  : Res (list B) :=
  match l with
  | [] => Ok []
  | x :: rest =>
      match callback x with
      | Ok y =>
          match Array_map callback rest with
          | Ok ys => Ok (y :: ys)
          | Throw e => Throw e
          | Pending => Pending
          end
      | Throw e => Throw e
      | Pending => Pending
      end
  end.

(** The [switch (item.type)] of the callback.  Reading [data] of a
    missing [item.resource] is a TypeError. *)
Definition item_text (item : ContentItem) : Res Js.value :=
  if type item =? "text" then Ok (text item)
  else if type item =? "resource" then
    match resource item with
    | Some r => Ok (data r)
    | None =>
        Throw (TypeError "Cannot read properties of undefined (reading 'data')")
    end
  else Ok (Some "").

Definition flatten (arrayResult : list ContentItem) : Res string :=
  match Array_map item_text arrayResult with
  | Ok texts => Ok (Js.Array_join texts blank_line)
  | Throw e => Throw e
  | Pending => Pending
  end.

(** ** The methods of [MCPClient] *)

(** The local variables of [processQuery]. *)
Record Frame : Type := {
  messages : list Message;
  finalText : list Js.value;
  toolResults : list CallToolResult
}.

Section Methods.

Context {Args Props : Type}.
Variable rt : Runtime Args Props.

Definition OLLAMA_MODEL : string :=
  Js.or_default (env_OLLAMA_MODEL rt) "qwen3:4b".

(** *** The collaborators *)

(** [this.mcp.connect(transport)] starts the child process.  The call is
    not awaited and its promise is dropped. *)
Definition mcp_connect (t : StdioClientTransport) : M Args Props unit :=
  emit (EvConnect t).

Definition mcp_listTools : M Args Props (list (McpTool Props)) :=
  request EvListTools (listTools_reply rt).

Definition mcp_callTool (tool : string) (arguments : Args)
  : M Args Props CallToolResult :=
  request (EvCallTool tool arguments) (callTool_reply rt).

Definition mcp_close : M Args Props unit := emit EvMcpClose.

Definition ollama_chat (req : ChatRequest Props)
  : M Args Props (ChatResponse Args) :=
  request (EvChat req) (chat_reply rt).

Definition console_log (line : list LogArg) : M Args Props unit :=
  emit (EvConsoleLog line).

(** *** constructor *)

Definition constructor : MCPClient Props :=
  {| transport := None; tools := [] |}.

(** *** connectToServer (lines 23-60) *)

Definition UnsupportedScriptType : Exn :=
  Error "Server script must be a .js or .py file".

Definition to_ollama_tool (tool : McpTool Props) : Tool Props :=
  {| tool_type := "function";
     tool_function :=
       {| tool_name := mcp_name tool;
          description := mcp_description tool;
          parameters := properties (inputSchema tool) |} |}.

Definition set_transport (t : StdioClientTransport) : M Args Props unit :=
  c <- get_this ;;
  set_this {| transport := Some t; tools := tools c |}.

Definition set_tools (ts : list (Tool Props)) : M Args Props unit :=
  c <- get_this ;;
  set_this {| transport := transport c; tools := ts |}.

Definition connectToServer (serverScriptPath : string) : M Args Props unit :=
  try_catch
    (let isJs := Js.endsWith serverScriptPath ".js" in
     let isPy := Js.endsWith serverScriptPath ".py" in
     if negb isJs && negb isPy then throw UnsupportedScriptType
     else
       let command :=
         if isPy
         then (if platform rt =? "win32" then "python" else "python3")
         else execPath rt in
       let t := {| command := command; args := [serverScriptPath] |} in
       set_transport t ;;
       mcp_connect t ;;
       toolsResult <- mcp_listTools ;;
       set_tools (map to_ollama_tool toolsResult) ;;
       c <- get_this ;;
       console_log
         [LogStr "Connected to server with tools:";
          LogNames (map (fun tool => tool_name (tool_function tool))
                        (tools c))])
    (fun e =>
       console_log [LogStr "Failed to connect to MCP server: "; LogExn e] ;;
       throw e).

(** *** processQuery (lines 62-125) *)

Definition user_message (query : string) : Message :=
  {| role := "user"; content := query |}.

Definition tool_message (flattened : string) : Message :=
  {| role := "tool"; content := flattened |}.

(** The first request carries the tool descriptors, a follow-up request
    has no [tools] key. *)
Definition first_request (msgs : list Message) (ts : list (Tool Props))
  : ChatRequest Props :=
  {| req_model := OLLAMA_MODEL; req_messages := msgs;
     req_stream := false; req_tools := Some ts |}.

Definition follow_up_request (msgs : list Message) : ChatRequest Props :=
  {| req_model := OLLAMA_MODEL; req_messages := msgs;
     req_stream := false; req_tools := None |}.

Definition trace_line (toolName : string) (toolArgs : Args) : string :=
  "[Calling tool " ++ toolName ++ " with args "
    ++ Js.template (JSON_stringify rt toolArgs) ++ "]".

(** [response.message.content ? response.message.content : ""]. *)
Definition response_text (response : ChatResponse Args) : string :=
  let c := message_content (message response) in
  if Js.truthy c then Js.join_element c else "".

(** One turn of the [for ... of] loop (lines 81-118). *)
Definition call_body (directive : ToolCall Args) (fr : Frame)
  : M Args Props Frame :=
  let toolName := name (function directive) in
  let toolArgs := arguments (function directive) in
  result <- mcp_callTool toolName toolArgs ;;
  let toolResults1 := (toolResults fr ++ [result])%list in
  let finalText1 :=
    (finalText fr ++ [Some (trace_line toolName toolArgs)])%list in
  flattened <- lift (flatten (result_content result)) ;;
  let messages1 := (messages fr ++ [tool_message flattened])%list in
  response <- ollama_chat (follow_up_request messages1) ;;
  ret {| messages := messages1;
         finalText := (finalText1 ++ [Some (response_text response)])%list;
         toolResults := toolResults1 |}.

Fixpoint for_of (calls : list (ToolCall Args)) (fr : Frame)
  : M Args Props Frame :=
  match calls with
  | [] => ret fr
  | directive :: rest =>
      fr1 <- call_body directive fr ;;
      for_of rest fr1
  end.

(** The local variables when the first request is made (lines 63-77). *)
Definition initial_frame (query : string) : Frame :=
  {| messages := [user_message query]; finalText := [];
     toolResults := [] |}.

(** [processQuery] up to its [return]: the local variables there. *)
Definition processQuery_frame (query : string) : M Args Props Frame :=
  let fr := initial_frame query in
  c <- get_this ;;
  response <- ollama_chat (first_request (messages fr) (tools c)) ;;
  match tool_calls (message response) with
  | Some calls => for_of calls fr
  | None =>
      ret {| messages := messages fr;
             finalText :=
               (finalText fr ++ [message_content (message response)])%list;
             toolResults := toolResults fr |}
  end.

Definition processQuery (query : string) : M Args Props string :=
  fr <- processQuery_frame query ;;
  ret (Js.Array_join (finalText fr) LF).

(** *** chatLoop (lines 127-152) *)

Definition prompt : string := LF ++ "Query: ".

(** The [try] ... [catch] of one turn (lines 142-147). *)
Definition query_turn (message : string) : M Args Props unit :=
  try_catch
    (response <- processQuery message ;;
     console_log [LogStr (LF ++ " Response :" ++ response)])
    (fun err => console_log [LogStr "Error occured : "; LogExn err]).

(** [rl.question] when no line is left (line 138): the call is outside
    the [try] of the turn, so its rejection leaves the loop. *)
Definition question_at_end : M Args Props unit :=
  emit (EvQuestion prompt) ;;
  match at_end_of_input rt with
  | Rejects e => throw e
  | NeverSettles => lift Pending
  end.

(** The [while (true)] loop over the lines the user will type. *)
Fixpoint chatLoop_while (stdin : list string) : M Args Props unit :=
  match stdin with
  | [] => question_at_end
  | message :: rest =>
      emit (EvQuestion prompt) ;;
      if Js.toLowerCase message =? "quit" then ret tt
      else
        query_turn message ;;
        chatLoop_while rest
  end.

Definition chatLoop (stdin : list string) : M Args Props unit :=
  emit EvCreateInterface ;;
  try_finally
    (console_log [LogStr (LF ++ "MCP Client Started!")] ;;
     console_log [LogStr "Type your queries or 'quit' to exit."] ;;
     chatLoop_while stdin)
    (emit EvRlClose).

(** *** cleanup (lines 154-156) *)

Definition cleanup : M Args Props unit := mcp_close.

End Methods.

(** An item of type resource carries its [resource] object. *)
Definition has_resource (item : ContentItem) : Prop :=
  type item = "resource" -> resource item <> None.

(** ** Reading the event log *)

Section Traces.

Context {Args Props : Type}.

(** The requests [ollama.chat] received, in order. *)
Fixpoint chat_requests (evs : list (Event Args Props))
  : list (ChatRequest Props) :=
  match evs with
  | [] => []
  | EvChat req :: rest => req :: chat_requests rest
  | _ :: rest => chat_requests rest
  end.

(** The calls [mcp.callTool] received, in order. *)
Fixpoint tool_invocations (evs : list (Event Args Props))
  : list (string * Args) :=
  match evs with
  | [] => []
  | EvCallTool tool arguments :: rest =>
      (tool, arguments) :: tool_invocations rest
  | _ :: rest => tool_invocations rest
  end.

(** The transports [mcp.connect] started. *)
Fixpoint spawned (evs : list (Event Args Props))
  : list StdioClientTransport :=
  match evs with
  | [] => []
  | EvConnect t :: rest => t :: spawned rest
  | _ :: rest => spawned rest
  end.

(** The console line of the [catch] in [connectToServer]. *)
Definition failed_to_connect (e : Exn) : Event Args Props :=
  EvConsoleLog [LogStr "Failed to connect to MCP server: "; LogExn e].

(** A request without the [tools] key. *)
Definition no_tools (req : ChatRequest Props) : Prop :=
  req_tools req = None.

Definition call_signature (directive : ToolCall Args) : string * Args :=
  (name (function directive), arguments (function directive)).

(** The tool-call directives of a response: none when [tool_calls] is
    missing. *)
Definition directives (response : ChatResponse Args)
  : list (ToolCall Args) :=
  match tool_calls (message response) with
  | Some calls => calls
  | None => []
  end.

Variable rt : Runtime Args Props.

(** One completed turn of the loop: the directive, what the server
    returned, its flattened text, and the model's answer to the
    follow-up request. *)
Record Turn : Type := {
  turn_call : ToolCall Args;
  turn_result : CallToolResult;
  turn_blob : string;
  turn_answer : ChatResponse Args
}.

Definition call_event (directive : ToolCall Args) : Event Args Props :=
  EvCallTool (name (function directive)) (arguments (function directive)).

Definition turn_message (t : Turn) : Message :=
  tool_message (turn_blob t).

(** The events of completed turns, entered with the message array
    [history]. *)
Fixpoint turn_events (history : list Message) (turns : list Turn)
  : list (Event Args Props) :=
  match turns with
  | [] => []
  | t :: rest =>
      let history1 := (history ++ [turn_message t])%list in
      call_event (turn_call t)
        :: EvChat (follow_up_request rt history1)
        :: turn_events history1 rest
  end.

(** The turns are what the collaborators answered, from the log [seen]
    and the message array [history] on. *)
Fixpoint answered (seen : list (Event Args Props))
  (history : list Message) (turns : list Turn) : Prop :=
  match turns with
  | [] => True
  | t :: rest =>
      let call := call_event (turn_call t) in
      let history1 := (history ++ [turn_message t])%list in
      let chat := EvChat (follow_up_request rt history1) in
      callTool_reply rt (seen ++ [call]) = Ok (turn_result t)
      /\ flatten (result_content (turn_result t)) = Ok (turn_blob t)
      /\ chat_reply rt (seen ++ [call; chat]) = Ok (turn_answer t)
      /\ answered (seen ++ [call; chat]) history1 rest
  end.

(** The two entries a completed turn adds to [finalText]. *)
Definition turn_entries (t : Turn) : list string :=
  [trace_line rt (name (function (turn_call t)))
     (arguments (function (turn_call t)));
   response_text (turn_answer t)].

(** The local variables after completed turns. *)
Definition after_turns (fr : Frame) (turns : list Turn) : Frame :=
  {| messages := messages fr ++ map turn_message turns;
     finalText := finalText fr ++ map Some (flat_map turn_entries turns);
     toolResults := toolResults fr ++ map turn_result turns |}.

(** The first request of [processQuery] and the world once it is
    made. *)
Definition first_chat (query : string) (w : World Args Props)
  : Event Args Props :=
  EvChat (first_request rt [user_message query] (tools (this w))).

Definition after_first_chat (query : string) (w : World Args Props)
  : World Args Props :=
  {| this := this w; log := log w ++ [first_chat query w] |}.

(** Collaborators that answer every request, with well-formed tool
    results. *)
Definition responsive : Prop :=
  (forall seen, exists response, chat_reply rt seen = Ok response)
  /\ (forall seen, exists result,
        callTool_reply rt seen = Ok result
        /\ Forall has_resource (result_content result)).

(** The world once [rl.question] has shown its prompt. *)
Definition after_question (w : World Args Props) : World Args Props :=
  {| this := this w; log := log w ++ [EvQuestion prompt] |}.

(** The console lines of [chatLoop] before its loop. *)
Definition started : list (Event Args Props) :=
  [EvConsoleLog [LogStr (LF ++ "MCP Client Started!")];
   EvConsoleLog [LogStr "Type your queries or 'quit' to exit."]].

End Traces.

(** ** The wording of the specification, for comparison *)

(** "text verbatim; resource items rendered via their embedded data field;
    unknown item kinds render as empty string". *)
Definition textual_representation (item : ContentItem) : string :=
  if type item =? "text" then Js.join_element (text item)
  else if type item =? "resource" then
    match resource item with
    | Some r => Js.join_element (data r)
    | None => ""
    end
  else "".

(** What [join] puts after the first element. *)
Fixpoint join_tail (sep : string) (O : list Js.value) : string :=
  match O with
  | [] => ""
  | element :: rest => sep ++ Js.join_element element ++ join_tail sep rest
  end.

(** A string ends in a suffix. *)
Definition ends_in (s suffix : string) : Prop :=
  exists before, s = before ++ suffix.

(** ** A scripted run *)

Module Demo.

(** Arguments: [undefined], or an object with numeric fields. *)
Definition Args : Type := option (list (string * nat)).
Definition Props : Type := list string.

Definition quote : string := String (ascii_of_nat 34) EmptyString.

Definition stringify_field (field : string * nat) : string :=
  quote ++ fst field ++ quote ++ ":"
    ++ NilZero.string_of_uint (Nat.to_uint (snd field)).

Definition stringify (a : Args) : Js.value :=
  match a with
  | None => None
  | Some fields =>
      Some ("{" ++ String.concat "," (map stringify_field fields) ++ "}")
  end.

Definition add_call : ToolCall Args :=
  {| function := {| name := "add";
                    arguments := Some [("a", 1); ("b", 2)] |} |}.

Definition read_call : ToolCall Args :=
  {| function := {| name := "read"; arguments := None |} |}.

Definition text_item (s : string) : ContentItem :=
  {| type := "text"; text := Some s; resource := None |}.

Definition resource_item (s : string) : ContentItem :=
  {| type := "resource"; text := None;
     resource := Some {| data := Some s |} |}.

Definition unknown_item : ContentItem :=
  {| type := "unknown"; text := None; resource := None |}.

Definition example_items : list ContentItem :=
  [text_item "a"; resource_item "b"; unknown_item].

Definition advertised : list (McpTool Props) :=
  [{| mcp_name := "add"; mcp_description := Some "Adds two numbers";
      inputSchema := {| properties := Some ["a"; "b"] |} |};
   {| mcp_name := "read"; mcp_description := None;
      inputSchema := {| properties := None |} |}].

(** The server answers [add] with a text and [read] with three items. *)
Definition callTool_script (seen : list (Event Args Props))
  : Res CallToolResult :=
  match last seen EvListTools with
  | EvCallTool tool _ =>
      if tool =? "add" then Ok {| result_content := [text_item "3"] |}
      else if tool =? "read"
           then Ok {| result_content := example_items |}
           else Throw (Error "Unknown tool")
  | _ => Throw (Error "Not connected")
  end.

(** The model asks for two tools, then answers with a text, then with
    no text. *)
Definition chat_script (first : ResponseMessage Args)
  (seen : list (Event Args Props)) : Res (ChatResponse Args) :=
  match List.length (chat_requests seen) with
  | 1 => Ok {| message := first |}
  | 2 => Ok {| message := {| message_content := Some "The sum is 3";
                             tool_calls := None |} |}
  | _ => Ok {| message := {| message_content := None;
                             tool_calls := None |} |}
  end.

Definition runtime (first : ResponseMessage Args) : Runtime Args Props :=
  {| platform := "linux";
     execPath := "/usr/bin/node";
     env_OLLAMA_MODEL := None;
     JSON_stringify := stringify;
     listTools_reply := fun _ => Ok advertised;
     callTool_reply := callTool_script;
     chat_reply := chat_script first;
     at_end_of_input := NeverSettles |}.

(** The first answer of the model: two directives; no [tool_calls]; an
    empty [tool_calls]. *)
Definition two_calls : ResponseMessage Args :=
  {| message_content := Some "Let me look.";
     tool_calls := Some [add_call; read_call] |}.

Definition plain_answer : ResponseMessage Args :=
  {| message_content := Some "Hello"; tool_calls := None |}.

Definition empty_calls : ResponseMessage Args :=
  {| message_content := Some "Hello"; tool_calls := Some [] |}.

Definition start : World Args Props :=
  {| this := constructor; log := [] |}.

(** The client after [connectToServer]. *)
Definition connected : World Args Props :=
  snd (connectToServer (runtime two_calls) "server.js" start).

(** The value a run returned, [default] when it returned none. *)
Definition returned {A} (default : A) (run : Res A * World Args Props) : A :=
  match fst run with
  | Ok a => a
  | _ => default
  end.

(** A query answered with two directives, with no [tool_calls], and with
    an empty [tool_calls]. *)
Definition run_two_calls : Res string * World Args Props :=
  processQuery (runtime two_calls) "add 1 and 2" connected.

Definition run_plain_answer : Res string * World Args Props :=
  processQuery (runtime plain_answer) "hi" connected.

Definition run_empty_calls : Res string * World Args Props :=
  processQuery (runtime empty_calls) "hi" connected.

(** The loop of [run_two_calls] stopped after its first directive. *)
Definition run_one_turn : Res Frame * World Args Props :=
  for_of (runtime two_calls) [add_call] (initial_frame "add 1 and 2")
    (after_first_chat (runtime two_calls) "add 1 and 2" connected).

End Demo.

(** ** More of the program: the server command, the loop's lines, main *)

(** How [main] ends: it returns, the process exits with a code, the
    promise of [main] is rejected, or an [await] never settles. *)
Inductive MainOutcome : Type :=
| Returned
| Exited (code : nat)
| Rejected (e : Exn)
| Hung.

Section Main.

Context {Args Props : Type}.
Variable rt : Runtime Args Props.

(** The transport [connectToServer] builds for a script (lines 30-39). *)
Definition server_transport (serverScriptPath : string)
  : StdioClientTransport :=
  {| command :=
       if Js.endsWith serverScriptPath ".py"
       then (if platform rt =? "win32" then "python" else "python3")
       else execPath rt;
     args := [serverScriptPath] |}.

(** The console lines of [connectToServer] and of a turn of [chatLoop]. *)
Definition connected_line (advertised : list (McpTool Props))
  : Event Args Props :=
  EvConsoleLog [LogStr "Connected to server with tools:";
                LogNames (map mcp_name advertised)].

Definition response_line (response : string) : Event Args Props :=
  EvConsoleLog [LogStr (LF ++ " Response :" ++ response)].

Definition error_line (err : Exn) : Event Args Props :=
  EvConsoleLog [LogStr "Error occured : "; LogExn err].

(** The test of line 139. *)
Definition quits (message : string) : bool :=
  Js.toLowerCase message =? "quit".

(** Collaborators whose answers settle: a value or an exception. *)
Definition settles : Prop :=
  (forall seen, chat_reply rt seen <> Pending)
  /\ (forall seen, callTool_reply rt seen <> Pending).

(** The events [processQuery] may produce: a call of a tool, or a chat
    request on the configured model with streaming off. *)
Definition query_event (e : Event Args Props) : Prop :=
  match e with
  | EvCallTool _ _ => True
  | EvChat req => req_model req = OLLAMA_MODEL rt /\ req_stream req = false
  | _ => False
  end.

(** The log of [processQuery] once the turns [completed] are done. *)
Definition run_log (query : string) (w : World Args Props)
  (completed : list Turn) : list (Event Args Props) :=
  log w ++ first_chat rt query w
    :: turn_events rt [user_message query] completed.

(** How often [mcp.close] was called. *)
Fixpoint closes (evs : list (Event Args Props)) : nat :=
  match evs with
  | [] => 0
  | EvMcpClose :: rest => S (closes rest)
  | _ :: rest => closes rest
  end.

(** What [mcp.close] answers. *)
Variable close_reply : list (Event Args Props) -> Res unit.

(** [cleanup] with the [await] of [this.mcp.close()] (line 155). *)
Definition cleanup_awaited : M Args Props unit :=
  request EvMcpClose close_reply.

Definition usage : string :=
  "Usage: node build/index.js ../mcp-server/build/index.js".

(** The [try] block of [main] (lines 166-167). *)
Definition main_body (argv stdin : list string) : M Args Props unit :=
  connectToServer rt (nth 2 argv "") ;;
  chatLoop rt stdin.

(** [main] on the arguments [argv] of the process and the lines [stdin].
    [process.exit(0)] in the [finally] block ends the process, whatever
    the [try] block threw; the block is not reached when an [await] of
    the [try] block never settles. *)
Definition main (argv stdin : list string) (w : World Args Props)
  : MainOutcome * World Args Props :=
  if (List.length argv <? 3)%nat
  then (Returned, snd (console_log [LogStr usage] w))
  else
    let mcpClient := {| this := constructor; log := log w |} in
    match main_body argv stdin mcpClient with
    | (Pending, w1) => (Hung, w1)
    | (_, w1) =>
        match cleanup_awaited w1 with
        | (Ok _, w2) => (Exited 0, w2)
        | (Throw e, w2) => (Rejected e, w2)
        | (Pending, w2) => (Hung, w2)
        end
    end.

End Main.

(** A resource item without its resource object, and the exception that
    reading its [data] throws. *)
Definition lacks_resource (item : ContentItem) : Prop :=
  type item = "resource" /\ resource item = None.

Definition missing_data : Exn :=
  TypeError "Cannot read properties of undefined (reading 'data')".

(** The spellings of quit. *)
Definition quit_spellings : list string :=
  flat_map (fun q =>
    flat_map (fun u =>
      flat_map (fun i => map (fun t => q ++ u ++ i ++ t) ["t"; "T"])
        ["i"; "I"])
      ["u"; "U"])
    ["q"; "Q"].

(** ** More scripted runs *)

Module Scenario.

Import Demo.

(** A directive for a tool the server does not have. *)
Definition mul_call : ToolCall Args :=
  {| function := {| name := "mul"; arguments := Some [("a", 2)] |} |}.

Definition three_calls : ResponseMessage Args :=
  {| message_content := None;
     tool_calls := Some [add_call; mul_call; read_call] |}.

(** A resource item without its resource object. *)
Definition bad_item : ContentItem :=
  {| type := "resource"; text := None; resource := None |}.

(** A server that answers every call with [bad_item]. *)
Definition broken_server : Runtime Args Props :=
  {| platform := "win32";
     execPath := "node.exe";
     env_OLLAMA_MODEL := Some "llama3";
     JSON_stringify := stringify;
     listTools_reply := fun _ => Throw (Error "spawn failed");
     callTool_reply := fun _ => Ok {| result_content := [bad_item] |};
     chat_reply := chat_script two_calls;
     at_end_of_input := NeverSettles |}.

(** A model that answers the first request and fails afterwards. *)
Definition failing_model : Runtime Args Props :=
  {| platform := "linux";
     execPath := "/usr/bin/node";
     env_OLLAMA_MODEL := Some "";
     JSON_stringify := stringify;
     listTools_reply := fun _ => Ok advertised;
     callTool_reply := callTool_script;
     chat_reply := fun seen =>
       match List.length (chat_requests seen) with
       | 1 => Ok {| message := two_calls |}
       | _ => Throw (Error "model unavailable")
       end;
     at_end_of_input := Rejects (Error "readline was closed") |}.

(** An answer whose only directive names a tool the server did not
    advertise. *)
Definition unknown_call : ResponseMessage Args :=
  {| message_content := None; tool_calls := Some [mul_call] |}.

(** The turn of [add_call] on the scripted server. *)
Definition add_turn : Turn (Args := Args) :=
  {| turn_call := add_call;
     turn_result := {| result_content := [text_item "3"] |};
     turn_blob := "3";
     turn_answer :=
       {| message := {| message_content := Some "The sum is 3";
                        tool_calls := None |} |} |}.

(** The turn of [read_call] that follows it. *)
Definition read_turn : Turn (Args := Args) :=
  {| turn_call := read_call;
     turn_result := {| result_content := example_items |};
     turn_blob := "a" ++ LF ++ LF ++ "b" ++ LF ++ LF;
     turn_answer :=
       {| message := {| message_content := None; tool_calls := None |} |} |}.

Definition close_ok (seen : list (Event Args Props)) : Res unit := Ok tt.

Definition close_fails (seen : list (Event Args Props)) : Res unit :=
  Throw (Error "close failed").

Definition argv : list string := ["node"; "build/index.js"; "server.js"].

End Scenario.

(** * Properties *)

(** ** Strings and the built-ins *)

Lemma string_app_assoc (a b c : string) : (a ++ b) ++ c = a ++ (b ++ c).
Proof.
  induction a as [| ch a IH]; simpl; [reflexivity | now rewrite IH].
Qed.

Lemma string_app_nil_r (a : string) : a ++ "" = a.
Proof.
  induction a as [| ch a IH]; simpl; [reflexivity | now rewrite IH].
Qed.

Lemma string_length_app (a b : string) :
  String.length (a ++ b) = String.length a + String.length b.
Proof.
  induction a as [| ch a IH]; simpl; [reflexivity | now rewrite IH].
Qed.

Lemma join_loop_tail (sep : string) (O : list Js.value) :
  forall R k, Js.join_loop sep R (S k) O = R ++ join_tail sep O.
Proof.
  induction O as [| element rest IH]; intros R k; simpl.
  - now rewrite string_app_nil_r.
  - rewrite IH. now rewrite !string_app_assoc.
Qed.

Lemma concat_cons_tail (sep : string) (x : Js.value) (O : list Js.value) :
  String.concat sep (map Js.join_element (x :: O))
  = Js.join_element x ++ join_tail sep O.
Proof.
  revert x. induction O as [| y rest IH]; intros x.
  - simpl. now rewrite string_app_nil_r.
  - change (String.concat sep (map Js.join_element (x :: y :: rest)))
      with (Js.join_element x ++ sep
              ++ String.concat sep (map Js.join_element (y :: rest))).
    rewrite IH. reflexivity.
Qed.

(** [join] is the concatenation of the elements' texts with the separator
    between each two of them. *)
Lemma Array_join_concat (O : list Js.value) (sep : string) :
  Js.Array_join O sep = String.concat sep (map Js.join_element O).
Proof.
  destruct O as [| x rest]; [reflexivity |].
  rewrite concat_cons_tail. unfold Js.Array_join. simpl.
  apply join_loop_tail.
Qed.

Lemma Array_join_strings (l : list string) (sep : string) :
  Js.Array_join (map Some l) sep = String.concat sep l.
Proof.
  rewrite Array_join_concat, map_map. simpl. now rewrite map_id.
Qed.

Lemma substring_all (s : string) : substring 0 (String.length s) s = s.
Proof.
  induction s as [| ch s IH]; simpl; [reflexivity | now rewrite IH].
Qed.

Lemma substring_skip (a b : string) (m : nat) :
  substring (String.length a) m (a ++ b) = substring 0 m b.
Proof.
  induction a as [| ch a IH]; simpl; [reflexivity | exact IH].
Qed.

Lemma substring_split (s : string) (n : nat) :
  n <= String.length s ->
  s = substring 0 n s ++ substring n (String.length s - n) s.
Proof.
  revert n. induction s as [| ch s IH]; intros n Hn.
  - destruct n; reflexivity.
  - destruct n as [| n].
    + simpl. now rewrite substring_all.
    + simpl in *. rewrite <- IH by lia. reflexivity.
Qed.

Lemma endsWith_spec (s suffix : string) :
  Js.endsWith s suffix = true <-> ends_in s suffix.
Proof.
  unfold Js.endsWith, ends_in. split.
  - destruct (Nat.ltb_spec (String.length s) (String.length suffix))
      as [Hlt | Hle];
      [discriminate |].
    intros H. apply String.eqb_eq in H.
    remember (String.length s - String.length suffix) as n eqn:Hn.
    assert (Hm : String.length suffix = String.length s - n) by lia.
    rewrite Hm in H. exists (substring 0 n s). rewrite <- H.
    apply substring_split. lia.
  - intros [before ->]. rewrite string_length_app.
    destruct (Nat.ltb_spec (String.length before + String.length suffix)
                (String.length suffix)) as [Hlt | Hle]; [lia |].
    replace (String.length before + String.length suffix - String.length suffix)
      with (String.length before) by lia.
    rewrite substring_skip, substring_all. apply String.eqb_refl.
Qed.

Lemma endsWith_false (s suffix : string) :
  ~ ends_in s suffix -> Js.endsWith s suffix = false.
Proof.
  intros H. destruct (Js.endsWith s suffix) eqn:E; [| reflexivity].
  apply endsWith_spec in E. contradiction.
Qed.

(** ** Flattening *)

Lemma Array_map_item_text (items : list ContentItem) :
  forall texts,
    Array_map item_text items = Ok texts ->
    map Js.join_element texts = map textual_representation items.
Proof.
  induction items as [| item rest IH]; intros texts Hmap; simpl in Hmap.
  - injection Hmap as <-. reflexivity.
  - destruct (item_text item) as [v | e |] eqn:Hitem; try discriminate.
    destruct (Array_map item_text rest) as [vs | e |]; try discriminate.
    injection Hmap as <-. simpl. rewrite (IH vs eq_refl). f_equal.
    unfold item_text in Hitem. unfold textual_representation.
    destruct (type item =? "text"); [now injection Hitem as <- |].
    destruct (type item =? "resource"); [| now injection Hitem as <-].
    destruct (resource item) as [r |]; [now injection Hitem as <- |].
    discriminate.
Qed.

Lemma Array_map_item_text_total (items : list ContentItem) :
  Forall has_resource items ->
  exists texts, Array_map item_text items = Ok texts.
Proof.
  induction 1 as [| item rest Hitem _ IH].
  - exists []. reflexivity.
  - destruct IH as (texts & Hmap). unfold has_resource in Hitem.
    assert (Hhead : exists v, item_text item = Ok v).
    { unfold item_text.
      destruct (type item =? "text"); [eauto |].
      destruct (String.eqb_spec (type item) "resource") as [Hres | _];
        [| eauto].
      destruct (resource item) as [r |]; [eauto |].
      exfalso. now apply Hitem. }
    destruct Hhead as (v & Hv).
    exists (v :: texts). simpl. now rewrite Hv, Hmap.
Qed.

Lemma flatten_total (items : list ContentItem) :
  Forall has_resource items -> exists blob, flatten items = Ok blob.
Proof.
  intros Hitems. unfold flatten.
  destruct (Array_map_item_text_total items Hitems) as (texts & ->). eauto.
Qed.

(** An item of type resource without its [resource] object makes the
    callback, and with it the whole flattening, throw. *)
Lemma flatten_without_resource (item : ContentItem) (rest : list ContentItem) :
  type item = "resource" -> resource item = None ->
  exists e, flatten (item :: rest) = Throw e.
Proof.
  intros Htype Hres. unfold flatten. simpl. unfold item_text.
  rewrite Htype, Hres. simpl. eauto.
Qed.

(** C3: the flattened blob of a tool result is the texts of its items (a
    text item's text, a resource item's embedded data, the empty string
    for any other kind) joined with a blank line, and there is such a blob
    whenever every item of type resource has its resource object; the
    items [text "a"; resource "b"; unknown] give "a", blank line, "b",
    blank line. *)
Theorem flatten_joins_representations :
  (forall (items : list ContentItem) (blob : string),
     flatten items = Ok blob ->
     blob = String.concat blank_line (map textual_representation items))
  /\ (forall items : list ContentItem,
        Forall has_resource items -> exists blob, flatten items = Ok blob)
  /\ flatten Demo.example_items = Ok ("a" ++ LF ++ LF ++ "b" ++ LF ++ LF).
Proof.
  split; [| split].
  - intros items blob. unfold flatten.
    destruct (Array_map item_text items) as [texts | e |] eqn:Hmap;
      try discriminate.
    intros H. injection H as <-.
    now rewrite Array_join_concat, (Array_map_item_text items texts Hmap).
  - exact flatten_total.
  - reflexivity.
Qed.

Lemma flatten_joins_representations_witness :
  flatten [Demo.text_item "x"; Demo.resource_item "y"]
  = Ok ("x" ++ LF ++ LF ++ "y")
  /\ "x" ++ LF ++ LF ++ "y"
     = String.concat blank_line
         (map textual_representation
            [Demo.text_item "x"; Demo.resource_item "y"]).
Proof.
  split; [reflexivity |].
  apply (proj1 flatten_joins_representations). reflexivity.
Defined.

(** ** connectToServer *)

Section Connect.

Context {Args Props : Type}.
Variable rt : Runtime Args Props.

(** C4: a server script path that ends neither in .js nor in .py makes
    [connectToServer] throw the unsupported-script error; the client's
    fields are as before (no transport was created) and the only new
    event is the console line, so no process was started. *)
Theorem connectToServer_rejects_suffix (path : string) (w : World Args Props) :
  ~ ends_in path ".js" -> ~ ends_in path ".py" ->
  exists w',
    connectToServer rt path w = (Throw UnsupportedScriptType, w')
    /\ this w' = this w
    /\ exists new,
         log w' = (log w ++ new)%list
         /\ new = [failed_to_connect UnsupportedScriptType]
         /\ spawned new = [].
Proof.
  intros Hjs Hpy.
  unfold connectToServer, try_catch.
  rewrite (endsWith_false _ _ Hjs), (endsWith_false _ _ Hpy). simpl.
  eexists. split; [reflexivity |]. split; [reflexivity |].
  eexists. repeat split.
Qed.

(** C7: after a successful [connectToServer] the stored descriptors are
    as many as the tools [listTools] advertised and carry the same names
    in the same order. *)
Theorem connectToServer_keeps_tools (path : string) (w w' : World Args Props) :
  connectToServer rt path w = (Ok tt, w') ->
  exists t advertised,
    listTools_reply rt (log w ++ [EvConnect t; EvListTools]) = Ok advertised
    /\ List.length (tools (this w')) = List.length advertised
    /\ map (fun tool => tool_name (tool_function tool)) (tools (this w'))
       = map mcp_name advertised.
Proof.
  unfold connectToServer, try_catch.
  destruct (negb (Js.endsWith path ".js") && negb (Js.endsWith path ".py"));
    [simpl; discriminate |].
  unfold bind, set_transport, set_tools, mcp_connect, mcp_listTools,
    console_log, request, emit, get_this, set_this. simpl.
  rewrite <- app_assoc. simpl.
  match goal with
  | |- context [listTools_reply rt (log w ++ [EvConnect ?t; EvListTools])] =>
      set (tr := t)
  end.
  destruct (listTools_reply rt (log w ++ [EvConnect tr; EvListTools]))
    as [advertised | e |] eqn:Hreply; simpl; try discriminate.
  intros H. injection H as <-. simpl.
  exists tr, advertised. split; [exact Hreply |].
  rewrite length_map, map_map. simpl. split; reflexivity.
Qed.

(** A path with a recognized suffix and an answering server give a
    successful connection. *)
Lemma connectToServer_succeeds (path : string) (w : World Args Props) :
  ends_in path ".js" \/ ends_in path ".py" ->
  (forall seen, exists advertised, listTools_reply rt seen = Ok advertised) ->
  exists w', connectToServer rt path w = (Ok tt, w').
Proof.
  intros Hsuffix Hserver.
  unfold connectToServer, try_catch.
  assert (Hgate : negb (Js.endsWith path ".js")
                    && negb (Js.endsWith path ".py") = false).
  { destruct Hsuffix as [H | H]; apply endsWith_spec in H; rewrite H;
      simpl; [reflexivity | apply andb_false_r]. }
  rewrite Hgate.
  unfold bind, set_transport, set_tools, mcp_connect, mcp_listTools,
    console_log, request, emit, get_this, set_this. simpl.
  match goal with
  | |- context [listTools_reply rt ?l] => destruct (Hserver l) as [adv ->]
  end.
  simpl. eauto.
Qed.

End Connect.

Lemma connectToServer_rejects_suffix_witness :
  exists w',
    connectToServer (Demo.runtime Demo.two_calls) "server.sh" Demo.start
    = (Throw UnsupportedScriptType, w')
    /\ spawned (log w') = [].
Proof.
  destruct (connectToServer_rejects_suffix (Demo.runtime Demo.two_calls)
              "server.sh" Demo.start)
    as (w' & Hrun & _ & new & Hlog & _ & Hnone).
  - intros H. apply endsWith_spec in H. discriminate H.
  - intros H. apply endsWith_spec in H. discriminate H.
  - exists w'. split; [exact Hrun |]. rewrite Hlog. exact Hnone.
Defined.

Lemma connectToServer_keeps_tools_witness :
  map (fun tool => tool_name (tool_function tool)) (tools (this Demo.connected))
  = ["add"; "read"].
Proof.
  destruct (connectToServer_keeps_tools (Demo.runtime Demo.two_calls)
              "server.js" Demo.start Demo.connected eq_refl)
    as (t & advertised & Hreply & _ & Hnames).
  rewrite Hnames. simpl in Hreply. injection Hreply as <-. reflexivity.
Defined.

(** ** processQuery: one turn of the loop *)

Section Query.

Context {Args Props : Type}.
Variable rt : Runtime Args Props.

Lemma after_turns_nil (fr : Frame) : after_turns rt fr [] = fr.
Proof.
  destruct fr. unfold after_turns. simpl. now rewrite !app_nil_r.
Qed.

Lemma after_turns_cons (fr : Frame) (t : Turn) (turns : list Turn) :
  after_turns rt (after_turns rt fr [t]) turns
  = after_turns rt fr (t :: turns).
Proof.
  unfold after_turns. simpl. rewrite <- !app_assoc. reflexivity.
Qed.

(** A turn that completes: the server answered, the result was
    flattened, the model answered the follow-up request. *)
Lemma call_body_ok (directive : ToolCall Args) (fr fr' : Frame)
  (w w' : World Args Props) :
  call_body rt directive fr w = (Ok fr', w') ->
  exists t,
    turn_call t = directive
    /\ answered rt (log w) (messages fr) [t]
    /\ fr' = after_turns rt fr [t]
    /\ this w' = this w
    /\ log w' = (log w ++ turn_events rt (messages fr) [t])%list.
Proof.
  unfold call_body, bind, mcp_callTool, ollama_chat, request, lift, ret.
  simpl.
  destruct (callTool_reply rt _) as [result | e |] eqn:Hcall;
    try discriminate.
  destruct (flatten (result_content result)) as [flattened | e |] eqn:Hflat;
    try discriminate.
  rewrite <- app_assoc. simpl.
  destruct (chat_reply rt _) as [response | e |] eqn:Hchat;
    try discriminate.
  intros H. injection H as <- <-.
  exists {| turn_call := directive; turn_result := result;
            turn_blob := flattened; turn_answer := response |}.
  unfold after_turns, turn_message, call_event. simpl.
  rewrite <- !app_assoc. simpl. repeat split; assumption.
Qed.

(** Conversely, answers of the collaborators make the turn complete. *)
Lemma call_body_answered (t : Turn) (fr : Frame) (w : World Args Props) :
  answered rt (log w) (messages fr) [t] ->
  call_body rt (turn_call t) fr w
  = (Ok (after_turns rt fr [t]),
     {| this := this w;
        log := log w ++ turn_events rt (messages fr) [t] |}).
Proof.
  simpl. intros (Hcall & Hflat & Hchat & _).
  unfold call_body, bind, mcp_callTool, ollama_chat, request, lift, ret.
  simpl. unfold call_event in Hcall, Hchat. rewrite Hcall, Hflat.
  rewrite <- app_assoc. simpl. unfold turn_message in Hchat.
  rewrite Hchat.
  unfold after_turns, turn_message, call_event. simpl.
  rewrite <- !app_assoc. reflexivity.
Qed.

(** A turn, whatever its outcome: the client's fields are untouched and
    the requests it sends to the model carry no tools. *)
Lemma call_body_frame (directive : ToolCall Args) (fr : Frame)
  (w : World Args Props) :
  this (snd (call_body rt directive fr w)) = this w
  /\ exists new,
       log (snd (call_body rt directive fr w)) = (log w ++ new)%list
       /\ Forall no_tools (chat_requests new).
Proof.
  unfold call_body, bind, mcp_callTool, ollama_chat, request, lift, ret.
  simpl.
  destruct (callTool_reply rt _) as [result | e |]; simpl;
    try (split; [reflexivity |]; eexists; split;
         [reflexivity | constructor]).
  destruct (flatten (result_content result)) as [flattened | e |]; simpl;
    try (split; [reflexivity |]; eexists; split;
         [reflexivity | constructor]).
  rewrite <- app_assoc. simpl.
  destruct (chat_reply rt _) as [response | e |]; simpl;
    (split; [reflexivity |]; eexists; split;
     [reflexivity | repeat constructor]).
Qed.

(** ** processQuery: the loop *)

Lemma for_of_app (calls1 calls2 : list (ToolCall Args)) (fr : Frame) :
  forall w,
    for_of rt (calls1 ++ calls2) fr w
    = bind (for_of rt calls1 fr) (for_of rt calls2) w.
Proof.
  revert fr. induction calls1 as [| d rest IH]; intros fr w.
  - reflexivity.
  - simpl. unfold bind.
    destruct (call_body rt d fr w) as [[fr1 | e |] w1]; try reflexivity.
    rewrite IH. reflexivity.
Qed.

(** A loop that completes is a sequence of completed turns, one for each
    directive in order. *)
Lemma for_of_ok (calls : list (ToolCall Args)) :
  forall (fr fr' : Frame) (w w' : World Args Props),
    for_of rt calls fr w = (Ok fr', w') ->
    exists turns,
      map turn_call turns = calls
      /\ answered rt (log w) (messages fr) turns
      /\ fr' = after_turns rt fr turns
      /\ this w' = this w
      /\ log w' = (log w ++ turn_events rt (messages fr) turns)%list.
Proof.
  induction calls as [| d rest IH]; intros fr fr' w w' Hrun.
  - injection Hrun as <- <-. exists []. simpl.
    rewrite after_turns_nil, app_nil_r. repeat split.
  - simpl in Hrun. unfold bind in Hrun.
    destruct (call_body rt d fr w) as [[fr1 | e |] w1] eqn:Hturn;
      try discriminate.
    apply call_body_ok in Hturn.
    destruct Hturn as (t & Hcall & Hans & -> & Hthis & Hlog).
    destruct (IH _ _ _ _ Hrun)
      as (turns & Hcalls & Hans' & -> & Hthis' & Hlog').
    exists (t :: turns). simpl in Hans, Hans', Hlog, Hlog' |- *.
    rewrite Hlog in Hans'.
    destruct Hans as (Hc & Hf & Hr & _).
    repeat split; try assumption.
    + now rewrite Hcall, Hcalls.
    + apply after_turns_cons.
    + now rewrite Hthis', Hthis.
    + rewrite Hlog', Hlog, <- app_assoc. reflexivity.
Qed.

Lemma for_of_answered (turns : list Turn) :
  forall (fr : Frame) (w : World Args Props),
    answered rt (log w) (messages fr) turns ->
    for_of rt (map turn_call turns) fr w
    = (Ok (after_turns rt fr turns),
       {| this := this w;
          log := log w ++ turn_events rt (messages fr) turns |}).
Proof.
  induction turns as [| t rest IH]; intros fr w Hans.
  - simpl. rewrite after_turns_nil, app_nil_r. now destruct w.
  - simpl in Hans. destruct Hans as (Hc & Hf & Hr & Hrest).
    simpl. unfold bind.
    rewrite call_body_answered by (simpl; auto).
    rewrite IH by (simpl; exact Hrest).
    simpl. rewrite after_turns_cons, <- app_assoc. reflexivity.
Qed.

Lemma answered_flatten (turns : list Turn) :
  forall (seen : list (Event Args Props)) (history : list Message),
    answered rt seen history turns ->
    Forall (fun t => flatten (result_content (turn_result t))
                     = Ok (turn_blob t)) turns.
Proof.
  induction turns as [| t rest IH]; intros seen history Hans;
    [constructor |].
  simpl in Hans. destruct Hans as (_ & Hflat & _ & Hrest).
  constructor; [exact Hflat | exact (IH _ _ Hrest)].
Qed.

Lemma for_of_frame (calls : list (ToolCall Args)) :
  forall (fr : Frame) (w : World Args Props),
    this (snd (for_of rt calls fr w)) = this w
    /\ exists new,
         log (snd (for_of rt calls fr w)) = (log w ++ new)%list
         /\ Forall no_tools (chat_requests new).
Proof.
  induction calls as [| d rest IH]; intros fr w.
  - simpl. split; [reflexivity |]. exists []. rewrite app_nil_r.
    split; [reflexivity | constructor].
  - simpl. unfold bind.
    destruct (call_body_frame d fr w) as (Hthis & new & Hlog & Hnew).
    destruct (call_body rt d fr w) as [[fr1 | e |] w1]; simpl in *;
      try (split; [exact Hthis |]; exists new; split; assumption).
    destruct (IH fr1 w1) as (Hthis' & new' & Hlog' & Hnew').
    split; [now rewrite Hthis', Hthis |].
    exists (new ++ new')%list. split.
    + now rewrite Hlog', Hlog, app_assoc.
    + clear - Hnew Hnew'. induction new as [| e new IHn]; [exact Hnew' |].
      destruct e; simpl in *; auto.
      inversion Hnew; subst. constructor; auto.
Qed.

End Query.

(** ** processQuery: the whole method *)

Section ProcessQuery.

Context {Args Props : Type}.
Variable rt : Runtime Args Props.

Lemma tool_invocations_turns (turns : list Turn) :
  forall history,
    tool_invocations (turn_events (Props := Props) rt history turns)
    = map call_signature (map turn_call turns).
Proof.
  induction turns as [| t rest IH]; intros history; simpl;
    [reflexivity | now rewrite IH].
Qed.

(** The k-th follow-up request is made on the history at the entry of
    the loop followed by the tool messages of the first k turns. *)
Lemma chat_requests_turns (turns : list Turn) :
  forall history,
    chat_requests (turn_events rt history turns)
    = map (fun k =>
             follow_up_request rt
               (history ++ map turn_message (firstn k turns)))
        (seq 1 (List.length turns)).
Proof.
  induction turns as [| t rest IH]; intros history; [reflexivity |].
  cbn [turn_events]. unfold call_event. cbn [chat_requests].
  rewrite IH. cbn [List.length seq map firstn]. f_equal.
  rewrite <- (seq_shift (List.length rest) 1), map_map.
  apply map_ext. intros k. cbn [firstn map].
  now rewrite <- app_assoc.
Qed.

(** [processQuery] is its first request followed, by cases on the
    answer, by the loop or by the push of the answer's text. *)
Lemma processQuery_frame_unfold (query : string) (w : World Args Props) :
  processQuery_frame rt query w
  = match chat_reply rt (log w ++ [first_chat rt query w]) with
    | Ok response =>
        match tool_calls (message response) with
        | Some calls =>
            for_of rt calls (initial_frame query)
              (after_first_chat rt query w)
        | None =>
            (Ok {| messages := [user_message query];
                   finalText := [message_content (message response)];
                   toolResults := [] |},
             after_first_chat rt query w)
        end
    | Throw e => (Throw e, after_first_chat rt query w)
    | Pending => (Pending, after_first_chat rt query w)
    end.
Proof.
  unfold processQuery_frame, bind, get_this, ollama_chat, request. simpl.
  fold (first_chat rt query w).
  destruct (chat_reply rt (log w ++ [first_chat rt query w]))
    as [response | e |]; try reflexivity.
  destruct (tool_calls (message response)); reflexivity.
Qed.

Lemma processQuery_unfold (query : string) (w : World Args Props) :
  processQuery rt query w
  = match processQuery_frame rt query w with
    | (Ok fr, w') => (Ok (Js.Array_join (finalText fr) LF), w')
    | (Throw e, w') => (Throw e, w')
    | (Pending, w') => (Pending, w')
    end.
Proof. reflexivity. Qed.

(** Whatever the outcome, [processQuery] leaves the client's fields as
    they are, its first event is the first request, and every later
    request comes without tools. *)
Lemma processQuery_frame_any (query : string) (w : World Args Props) :
  this (snd (processQuery_frame rt query w)) = this w
  /\ exists rest,
       log (snd (processQuery_frame rt query w))
       = (log w ++ first_chat rt query w :: rest)%list
       /\ Forall no_tools (chat_requests rest).
Proof.
  rewrite processQuery_frame_unfold.
  assert (Hstop : this (after_first_chat rt query w) = this w
                  /\ exists rest,
                       log (after_first_chat rt query w)
                       = (log w ++ first_chat rt query w :: rest)%list
                       /\ Forall no_tools (chat_requests rest)).
  { split; [reflexivity |]. exists []. split; [reflexivity | constructor]. }
  destruct (chat_reply rt _) as [response | e |]; try exact Hstop.
  destruct (tool_calls (message response)) as [calls |]; try exact Hstop.
  destruct (for_of_frame rt calls (initial_frame query)
              (after_first_chat rt query w)) as (Hthis & new & Hlog & Hnew).
  split; [exact Hthis |].
  exists new. split; [| exact Hnew].
  rewrite Hlog. simpl. now rewrite <- app_assoc.
Qed.

Lemma processQuery_any (query : string) (w : World Args Props) :
  this (snd (processQuery rt query w)) = this w
  /\ exists rest,
       log (snd (processQuery rt query w))
       = (log w ++ first_chat rt query w :: rest)%list
       /\ Forall no_tools (chat_requests rest).
Proof.
  rewrite processQuery_unfold.
  pose proof (processQuery_frame_any query w) as H.
  destruct (processQuery_frame rt query w) as [[fr | e |] w']; exact H.
Qed.

(** A run that returns went through the loop over the directives of the
    first answer. *)
Lemma processQuery_frame_ok (query : string) (w w' : World Args Props)
  (response : ChatResponse Args) (fr : Frame) :
  chat_reply rt (log w ++ [first_chat rt query w]) = Ok response ->
  processQuery_frame rt query w = (Ok fr, w') ->
  exists turns,
    map turn_call turns = directives response
    /\ answered rt (log w ++ [first_chat rt query w]) [user_message query]
         turns
    /\ messages fr = user_message query :: map turn_message turns
    /\ toolResults fr = map turn_result turns
    /\ this w' = this w
    /\ log w'
       = (log w ++ first_chat rt query w
            :: turn_events rt [user_message query] turns)%list
    /\ (forall calls,
          tool_calls (message response) = Some calls ->
          finalText fr = map Some (flat_map (turn_entries rt) turns)).
Proof.
  intros Hreply Hrun. rewrite processQuery_frame_unfold, Hreply in Hrun.
  unfold directives.
  destruct (tool_calls (message response)) as [calls |] eqn:Hcalls.
  - apply for_of_ok in Hrun.
    destruct Hrun as (turns & Hturns & Hans & -> & Hthis & Hlog).
    exists turns. simpl in *.
    repeat split; try assumption.
    rewrite Hlog, <- app_assoc. reflexivity.
  - injection Hrun as <- <-. exists []. simpl.
    repeat split; try reflexivity. discriminate.
Qed.

(** Conversely, when the collaborators answer the turns of the
    directives, [processQuery] returns the joined entries. *)
Lemma processQuery_answered (query : string) (w : World Args Props)
  (response : ChatResponse Args) (turns : list Turn) :
  chat_reply rt (log w ++ [first_chat rt query w]) = Ok response ->
  tool_calls (message response) = Some (map turn_call turns) ->
  answered rt (log w ++ [first_chat rt query w]) [user_message query]
    turns ->
  processQuery rt query w
  = (Ok (String.concat LF (flat_map (turn_entries rt) turns)),
     {| this := this w;
        log := log w ++ first_chat rt query w
                 :: turn_events rt [user_message query] turns |}).
Proof.
  intros Hreply Hcalls Hans.
  rewrite processQuery_unfold, processQuery_frame_unfold, Hreply, Hcalls.
  rewrite for_of_answered by exact Hans.
  simpl. rewrite Array_join_strings, <- app_assoc. reflexivity.
Qed.

End ProcessQuery.

(** ** processQuery: the claims *)

Section ProcessQueryClaims.

Context {Args Props : Type}.
Variable rt : Runtime Args Props.

Lemma processQuery_ok (query text : string) (w w' : World Args Props) :
  processQuery rt query w = (Ok text, w') ->
  exists fr,
    processQuery_frame rt query w = (Ok fr, w')
    /\ text = Js.Array_join (finalText fr) LF.
Proof.
  rewrite processQuery_unfold.
  destruct (processQuery_frame rt query w) as [[fr | e |] w1];
    try discriminate.
  intros H. injection H as <- <-. eauto.
Qed.

Lemma response_text_content (response : ChatResponse Args) :
  response_text response
  = Js.join_element (message_content (message response)).
Proof.
  unfold response_text.
  destruct (message_content (message response)) as [s |]; simpl;
    [| reflexivity].
  destruct (String.eqb_spec s ""); simpl; congruence.
Qed.

Lemma for_of_returns (Hrt : responsive rt) (calls : list (ToolCall Args)) :
  forall fr w, exists fr' w', for_of rt calls fr w = (Ok fr', w').
Proof.
  destruct Hrt as [Hchat Htool].
  induction calls as [| d rest IH]; intros fr w; simpl;
    [exists fr, w; reflexivity |].
  assert (Hturn : exists fr1 w1, call_body rt d fr w = (Ok fr1, w1)).
  { unfold call_body, bind, mcp_callTool, ollama_chat, request, lift, ret.
    simpl.
    destruct (Htool (log w ++ [EvCallTool (name (function d))
                                 (arguments (function d))])%list)
      as (result & -> & Hitems).
    destruct (flatten_total _ Hitems) as [blob ->].
    match goal with
    | |- context [chat_reply rt ?l] => destruct (Hchat l) as [response ->]
    end.
    eauto. }
  destruct Hturn as (fr1 & w1 & Hturn). unfold bind. rewrite Hturn.
  apply IH.
Qed.

(** With collaborators that answer, [processQuery] returns a text. *)
Lemma processQuery_returns (Hrt : responsive rt) (query : string)
  (w : World Args Props) :
  exists text w', processQuery rt query w = (Ok text, w').
Proof.
  rewrite processQuery_unfold, processQuery_frame_unfold.
  destruct (proj1 Hrt (log w ++ [first_chat rt query w])%list)
    as [response ->].
  destruct (tool_calls (message response)) as [calls |]; [| eauto].
  destruct (for_of_returns Hrt calls (initial_frame query)
              (after_first_chat rt query w)) as (fr & w' & ->).
  eauto.
Qed.

(** C1: when the first answer carries N tool-call directives and
    [processQuery] returns, the run is the first request and then one
    completed turn for each directive, in order: [callTool] was called N
    times, with the names and arguments of the directives in their
    order, and N follow-up requests were made, all without tools; the
    first request carries the one message of role user with the query, and
    the k-th follow-up request carries that message followed by the
    messages of role tool of the first k turns, each with the flattened
    result of its turn. *)
Theorem processQuery_calls_tools_in_order (query text : string)
  (w w' : World Args Props) (response : ChatResponse Args) :
  chat_reply rt (log w ++ [first_chat rt query w]) = Ok response ->
  processQuery rt query w = (Ok text, w') ->
  exists new turns,
    log w' = (log w ++ new)%list
    /\ map turn_call turns = directives response
    /\ answered rt (log w ++ [first_chat rt query w]) [user_message query]
         turns
    /\ Forall (fun t => flatten (result_content (turn_result t))
                        = Ok (turn_blob t)) turns
    /\ new = first_chat rt query w
               :: turn_events rt [user_message query] turns
    /\ tool_invocations new
       = map (fun d => (name (function d), arguments (function d)))
           (directives response)
    /\ chat_requests new
       = {| req_model := OLLAMA_MODEL rt;
            req_messages := [{| role := "user"; content := query |}];
            req_stream := false;
            req_tools := Some (tools (this w)) |}
           :: map (fun k =>
                     {| req_model := OLLAMA_MODEL rt;
                        req_messages :=
                          {| role := "user"; content := query |}
                            :: map (fun t => {| role := "tool";
                                                content := turn_blob t |})
                                 (firstn k turns);
                        req_stream := false;
                        req_tools := None |})
                (seq 1 (List.length (directives response))).
Proof.
  intros Hreply Hrun.
  apply processQuery_ok in Hrun. destruct Hrun as (fr & Hrun & _).
  destruct (processQuery_frame_ok rt query w w' response fr Hreply Hrun)
    as (turns & Hturns & Hans & _ & _ & _ & Hlog & _).
  eexists. exists turns.
  split; [exact Hlog |]. split; [exact Hturns |]. split; [exact Hans |].
  split; [exact (answered_flatten rt turns _ _ Hans) |].
  split; [reflexivity |]. unfold first_chat. simpl. split.
  - now rewrite tool_invocations_turns, Hturns.
  - now rewrite chat_requests_turns, <- Hturns, length_map.
Qed.

(** C5: when the first answer carries the directives [calls] and
    [processQuery] returns, the returned text is the entries joined with
    a line feed, two for each directive in order: the trace line
    "[Calling tool <name> with args <json>]", where <json> is what
    [JSON.stringify] gives for the arguments (undefined when it gives
    nothing), and the text of the model's answer to that turn's follow-up
    request, empty when the answer has none. *)
Theorem processQuery_text_of_tool_calls (query text : string)
  (w w' : World Args Props) (response : ChatResponse Args)
  (calls : list (ToolCall Args)) :
  chat_reply rt (log w ++ [first_chat rt query w]) = Ok response ->
  tool_calls (message response) = Some calls ->
  1 <= List.length calls ->
  processQuery rt query w = (Ok text, w') ->
  exists turns,
    map turn_call turns = calls
    /\ answered rt (log w ++ [first_chat rt query w]) [user_message query]
         turns
    /\ (let entries :=
          flat_map
            (fun t : Turn =>
               ["[Calling tool " ++ name (function (turn_call t))
                  ++ " with args "
                  ++ match JSON_stringify rt
                             (arguments (function (turn_call t))) with
                     | Some json => json
                     | None => "undefined"
                     end
                  ++ "]";
                match message_content (message (turn_answer t)) with
                | Some answer => answer
                | None => ""
                end])
            turns in
        List.length entries = 2 * List.length calls
        /\ text = String.concat LF entries).
Proof.
  intros Hreply Hcalls _ Hrun.
  apply processQuery_ok in Hrun. destruct Hrun as (fr & Hrun & ->).
  destruct (processQuery_frame_ok rt query w w' response fr Hreply Hrun)
    as (turns & Hturns & Hans & _ & _ & _ & _ & Htext).
  unfold directives in Hturns. rewrite Hcalls in Hturns.
  exists turns. split; [exact Hturns |]. split; [exact Hans |].
  assert (Hentries :
           flat_map (turn_entries rt) turns
           = flat_map
               (fun t : Turn =>
                  ["[Calling tool " ++ name (function (turn_call t))
                     ++ " with args "
                     ++ match JSON_stringify rt
                                (arguments (function (turn_call t))) with
                        | Some json => json
                        | None => "undefined"
                        end
                     ++ "]";
                   match message_content (message (turn_answer t)) with
                   | Some answer => answer
                   | None => ""
                   end])
               turns).
  { apply flat_map_ext. intros t. unfold turn_entries.
    now rewrite response_text_content. }
  cbv zeta. rewrite <- Hentries. split.
  - rewrite <- Hturns, length_map. clear.
    induction turns as [| t rest IH]; simpl; lia.
  - rewrite (Htext calls Hcalls). apply Array_join_strings.
Qed.

(** Without [tool_calls] in the first answer, [processQuery] returns the
    text of that answer. *)
Lemma processQuery_without_tool_calls (query : string)
  (w : World Args Props) (response : ChatResponse Args) :
  chat_reply rt (log w ++ [first_chat rt query w]) = Ok response ->
  tool_calls (message response) = None ->
  processQuery rt query w
  = (Ok (Js.join_element (message_content (message response))),
     after_first_chat rt query w).
Proof.
  intros Hreply Hcalls.
  rewrite processQuery_unfold, processQuery_frame_unfold, Hreply, Hcalls.
  reflexivity.
Qed.

(** C8: a first answer whose [tool_calls] is present and empty makes
    [processQuery] return the empty string, whatever the text of the
    answer. *)
Theorem processQuery_empty_tool_calls (query : string)
  (w : World Args Props) (response : ChatResponse Args) :
  chat_reply rt (log w ++ [first_chat rt query w]) = Ok response ->
  tool_calls (message response) = Some [] ->
  processQuery rt query w = (Ok "", after_first_chat rt query w).
Proof.
  intros Hreply Hcalls.
  rewrite processQuery_unfold, processQuery_frame_unfold, Hreply, Hcalls.
  reflexivity.
Qed.

End ProcessQueryClaims.

(** ** The history and the tool descriptors *)

Section History.

Context {Args Props : Type}.
Variable rt : Runtime Args Props.

Lemma turn_messages_roles (turns : list (Turn (Args := Args))) :
  Forall (fun m => role m = "tool") (map turn_message turns).
Proof.
  induction turns; simpl; constructor; [reflexivity | assumption].
Qed.

(** C9: the history of [processQuery] starts as one message, of role
    user and with the query as content; once the loop has processed the
    first k directives of the first answer it is that message followed by
    k messages of role tool, one for each turn and with the flattened
    result of the turn, so its length is 1 + k and none of its messages
    has the role assistant; the same holds, with k the number of
    directives, when [processQuery] returns. *)
Theorem history_grows_by_tool_messages (query : string)
  (w : World Args Props) (response : ChatResponse Args) (k : nat)
  (frk : Frame) (wk : World Args Props) :
  chat_reply rt (log w ++ [first_chat rt query w]) = Ok response ->
  k <= List.length (directives response) ->
  for_of rt (firstn k (directives response)) (initial_frame query)
    (after_first_chat rt query w) = (Ok frk, wk) ->
  messages (initial_frame query) = [{| role := "user"; content := query |}]
  /\ (exists turns : list Turn,
        map turn_call turns = firstn k (directives response)
        /\ List.length turns = k
        /\ Forall (fun t => flatten (result_content (turn_result t))
                            = Ok (turn_blob t)) turns
        /\ messages frk
           = {| role := "user"; content := query |}
               :: map (fun t => {| role := "tool"; content := turn_blob t |})
                    turns)
  /\ List.length (messages frk) = 1 + k
  /\ Forall (fun m => role m <> "assistant") (messages frk)
  /\ (forall fr w',
        processQuery_frame rt query w = (Ok fr, w') ->
        (exists turns : list Turn,
           map turn_call turns = directives response
           /\ messages fr
              = {| role := "user"; content := query |}
                  :: map (fun t => {| role := "tool";
                                      content := turn_blob t |}) turns)
        /\ List.length (messages fr) = 1 + List.length (directives response)
        /\ Forall (fun m => role m <> "assistant") (messages fr)).
Proof.
  intros Hreply Hk Hrun. split; [reflexivity |].
  assert (Hroles : forall turns : list (Turn (Args := Args)),
             Forall (fun m => role m <> "assistant")
               (user_message query :: map turn_message turns)).
  { intros turns. constructor; [simpl; discriminate |].
    eapply Forall_impl; [| apply turn_messages_roles].
    intros m Hm. rewrite Hm. discriminate. }
  apply for_of_ok in Hrun.
  destruct Hrun as (turns & Hturns & Hans & -> & _).
  assert (Hlen : List.length turns = k).
  { rewrite <- (length_map turn_call), Hturns, length_firstn.
    now apply Nat.min_l. }
  simpl. split; [| split; [| split]].
  - exists turns. split; [exact Hturns |]. split; [exact Hlen |].
    split; [exact (answered_flatten rt turns _ _ Hans) | reflexivity].
  - f_equal. now rewrite length_map.
  - apply Hroles.
  - intros fr w' Hfull.
    destruct (processQuery_frame_ok rt query w w' response fr Hreply Hfull)
      as (turns' & Hturns' & _ & Hmsgs' & _).
    rewrite Hmsgs'. split; [| split; [| apply Hroles]].
    + exists turns'. split; [exact Hturns' | reflexivity].
    + simpl. now rewrite length_map, <- (length_map turn_call), Hturns'.
Qed.

(** The state after the first k directives lies on the way of every
    run that returns. *)
Lemma processQuery_frame_through (query : string) (w w' : World Args Props)
  (response : ChatResponse Args) (calls : list (ToolCall Args))
  (fr : Frame) (k : nat) :
  chat_reply rt (log w ++ [first_chat rt query w]) = Ok response ->
  tool_calls (message response) = Some calls ->
  processQuery_frame rt query w = (Ok fr, w') ->
  exists frk wk,
    for_of rt (firstn k calls) (initial_frame query)
      (after_first_chat rt query w) = (Ok frk, wk)
    /\ for_of rt (skipn k calls) frk wk = (Ok fr, w').
Proof.
  intros Hreply Hcalls Hrun.
  rewrite processQuery_frame_unfold, Hreply, Hcalls in Hrun.
  rewrite <- (firstn_skipn k calls), for_of_app in Hrun at 1.
  unfold bind in Hrun.
  destruct (for_of rt (firstn k calls) (initial_frame query)
              (after_first_chat rt query w)) as [[frk | e |] wk];
    try discriminate.
  eauto.
Qed.

Lemma query_turn_any (message : string) (w : World Args Props) :
  this (snd (query_turn rt message w)) = this w
  /\ exists rest,
       log (snd (query_turn rt message w))
       = (log w ++ first_chat rt message w :: rest)%list.
Proof.
  unfold query_turn, try_catch, bind, console_log, emit.
  destruct (processQuery_any rt message w) as (Hthis & rest & Hlog & _).
  destruct (processQuery rt message w) as [[text | e |] w1]; simpl in *.
  - split; [exact Hthis |]. eexists. rewrite Hlog, <- app_assoc.
    reflexivity.
  - split; [exact Hthis |]. eexists. rewrite Hlog, <- app_assoc.
    reflexivity.
  - split; [exact Hthis |]. eexists. exact Hlog.
Qed.

Lemma chatLoop_while_cons (message : string) (rest : list string)
  (w : World Args Props) :
  chatLoop_while rt (message :: rest) w
  = if Js.toLowerCase message =? "quit" then (Ok tt, after_question w)
    else match query_turn rt message (after_question w) with
         | (Ok _, w2) => chatLoop_while rt rest w2
         | (Throw e, w2) => (Throw e, w2)
         | (Pending, w2) => (Pending, w2)
         end.
Proof.
  cbn [chatLoop_while]. unfold bind, emit. fold (after_question w).
  destruct (Js.toLowerCase message =? "quit"); reflexivity.
Qed.

Lemma question_at_end_cases (w : World Args Props) :
  question_at_end rt w
  = (match at_end_of_input rt with
     | Rejects e => Throw e
     | NeverSettles => Pending
     end,
     after_question w).
Proof.
  unfold question_at_end, bind, emit, throw, lift.
  destruct (at_end_of_input rt); reflexivity.
Qed.

Lemma chatLoop_while_any (stdin : list string) :
  forall w : World Args Props,
    this (snd (chatLoop_while rt stdin w)) = this w
    /\ exists new,
         log (snd (chatLoop_while rt stdin w)) = (log w ++ new)%list.
Proof.
  induction stdin as [| message rest IH]; intros w.
  - simpl. rewrite question_at_end_cases. simpl.
    split; [reflexivity |]. eexists. reflexivity.
  - rewrite chatLoop_while_cons.
    destruct (Js.toLowerCase message =? "quit").
    + simpl. split; [reflexivity |]. eexists. reflexivity.
    + destruct (query_turn_any message (after_question w))
        as (Hthis & new & Hlog).
      destruct (query_turn rt message (after_question w))
        as [[[] | e |] w2]; simpl in Hthis, Hlog.
      * destruct (IH w2) as (Hthis' & new' & Hlog').
        split; [now rewrite Hthis', Hthis |].
        eexists. rewrite Hlog', Hlog, <- !app_assoc. reflexivity.
      * simpl. split; [exact Hthis |]. eexists.
        rewrite Hlog, <- app_assoc. reflexivity.
      * simpl. split; [exact Hthis |]. eexists.
        rewrite Hlog, <- app_assoc. reflexivity.
Qed.

Lemma chatLoop_this (stdin : list string) (w : World Args Props) :
  this (snd (chatLoop rt stdin w)) = this w.
Proof.
  unfold chatLoop, try_finally, bind, console_log, emit. simpl.
  match goal with
  | |- context [chatLoop_while rt stdin ?w1] =>
      destruct (chatLoop_while_any stdin w1) as (Hthis & _);
      destruct (chatLoop_while rt stdin w1) as [[[] | e |] w2]
  end; simpl in *; exact Hthis.
Qed.

(** C10: [processQuery] leaves the stored tool descriptors unchanged,
    whatever its outcome; its first request has the [tools] key with
    exactly these descriptors and every later request of the run has no
    [tools] key; and neither [chatLoop] nor [cleanup] writes them, so that
    after the constructor only [connectToServer] does. *)
Theorem processQuery_leaves_tools (query : string) (stdin : list string)
  (w : World Args Props) :
  tools (this (snd (processQuery rt query w))) = tools (this w)
  /\ (exists new first rest,
        log (snd (processQuery rt query w)) = (log w ++ new)%list
        /\ chat_requests new = first :: rest
        /\ req_tools first = Some (tools (this w))
        /\ req_messages first = [{| role := "user"; content := query |}]
        /\ Forall (fun req => req_tools req = None) rest)
  /\ tools (this (snd (chatLoop rt stdin w))) = tools (this w)
  /\ tools (this (snd (cleanup w))) = tools (this w).
Proof.
  destruct (processQuery_any rt query w) as (Hthis & rest & Hlog & Hrest).
  split; [now rewrite Hthis |]. split; [| split].
  - exists (first_chat rt query w :: rest),
      (first_request rt [user_message query] (tools (this w))),
      (chat_requests rest).
    split; [exact Hlog |]. split; [reflexivity |].
    split; [reflexivity |]. split; [reflexivity | exact Hrest].
  - now rewrite chatLoop_this.
  - reflexivity.
Qed.

(** ** chatLoop *)

(** C6: a line whose lower-case form is quit ends the loop with no
    request to the model (the only event of the turn is the prompt, and
    [chatLoop] then closes the interface); any other line is followed by
    the first request of [processQuery] on that line. *)
Theorem chatLoop_quits_on_quit_only (line : string) (rest : list string)
  (w : World Args Props) :
  (Js.toLowerCase line = "quit" ->
   chatLoop_while rt (line :: rest) w = (Ok tt, after_question w)
   /\ chat_requests (log (after_question w)) = chat_requests (log w)
   /\ chatLoop rt (line :: rest) w
      = (Ok tt,
         {| this := this w;
            log := log w ++ EvCreateInterface
                     :: started ++ [EvQuestion prompt; EvRlClose] |}))
  /\ (Js.toLowerCase line <> "quit" ->
      chatLoop_while rt (line :: rest) w
      = bind (query_turn rt line) (fun _ => chatLoop_while rt rest)
          (after_question w)
      /\ exists new,
           log (snd (chatLoop_while rt (line :: rest) w))
           = (log w ++ EvQuestion prompt :: first_chat rt line w :: new)%list).
Proof.
  split.
  - intros Hquit. apply String.eqb_eq in Hquit. split; [| split].
    + now rewrite chatLoop_while_cons, Hquit.
    + simpl. clear. induction (log w) as [| e l IH]; [reflexivity |].
      destruct e; simpl; now rewrite ?IH.
    + unfold chatLoop, try_finally. cbn [chatLoop_while].
      unfold bind, console_log, emit. simpl. rewrite Hquit. simpl.
      rewrite <- !app_assoc. reflexivity.
  - intros Hother. apply String.eqb_neq in Hother.
    rewrite chatLoop_while_cons, Hother. split; [reflexivity |].
    destruct (query_turn_any line (after_question w)) as (_ & new & Hlog).
    change (first_chat rt line (after_question w))
      with (first_chat rt line w) in Hlog.
    destruct (query_turn rt line (after_question w)) as [[[] | e |] w2];
      simpl in Hlog.
    + destruct (chatLoop_while_any rest w2) as (_ & new' & Hlog').
      eexists. rewrite Hlog', Hlog, <- !app_assoc. reflexivity.
    + eexists. simpl. rewrite Hlog, <- app_assoc. reflexivity.
    + eexists. simpl. rewrite Hlog, <- app_assoc. reflexivity.
Qed.

End History.

(** ** The scripted run *)

Lemma processQuery_calls_tools_in_order_witness :
  exists new,
    log (snd Demo.run_two_calls) = (log Demo.connected ++ new)%list
    /\ tool_invocations new
       = [("add", Some [("a", 1); ("b", 2)]); ("read", None)]
    /\ map req_messages (chat_requests new)
       = [[{| role := "user"; content := "add 1 and 2" |}];
          [{| role := "user"; content := "add 1 and 2" |};
           {| role := "tool"; content := "3" |}];
          [{| role := "user"; content := "add 1 and 2" |};
           {| role := "tool"; content := "3" |};
           {| role := "tool";
              content := "a" ++ LF ++ LF ++ "b" ++ LF ++ LF |}]]
    /\ map req_tools (chat_requests new)
       = [Some (tools (this Demo.connected)); None; None].
Proof.
  destruct (processQuery_calls_tools_in_order (Demo.runtime Demo.two_calls)
              "add 1 and 2" (Demo.returned "" Demo.run_two_calls)
              Demo.connected (snd Demo.run_two_calls)
              {| message := Demo.two_calls |} eq_refl eq_refl)
    as (new & turns & Hlog & _).
  exists new. split; [exact Hlog |].
  assert (Hrun : log (snd Demo.run_two_calls)
                 = (log Demo.connected
                      ++ skipn 3 (log (snd Demo.run_two_calls)))%list)
    by reflexivity.
  rewrite Hrun in Hlog. apply app_inv_head in Hlog. subst new.
  repeat split; reflexivity.
Defined.

Lemma processQuery_text_of_tool_calls_witness :
  Demo.returned "" Demo.run_two_calls
  = String.concat LF
      ["[Calling tool add with args {" ++ Demo.quote ++ "a" ++ Demo.quote
         ++ ":1," ++ Demo.quote ++ "b" ++ Demo.quote ++ ":2}]";
       "The sum is 3";
       "[Calling tool read with args undefined]";
       ""]
  /\ exists turns : list Turn,
       map turn_call turns = [Demo.add_call; Demo.read_call]
       /\ Demo.returned "" Demo.run_two_calls
          = String.concat LF
              (flat_map
                 (fun t : Turn =>
                    ["[Calling tool " ++ name (function (turn_call t))
                       ++ " with args "
                       ++ match Demo.stringify
                                  (arguments (function (turn_call t))) with
                          | Some json => json
                          | None => "undefined"
                          end
                       ++ "]";
                     match message_content (message (turn_answer t)) with
                     | Some answer => answer
                     | None => ""
                     end])
                 turns).
Proof.
  split; [reflexivity |].
  destruct (processQuery_text_of_tool_calls (Demo.runtime Demo.two_calls)
              "add 1 and 2" (Demo.returned "" Demo.run_two_calls)
              Demo.connected (snd Demo.run_two_calls)
              {| message := Demo.two_calls |}
              [Demo.add_call; Demo.read_call] eq_refl eq_refl
              (le_S 1 1 (le_n 1)) eq_refl)
    as (turns & Hturns & _ & _ & Htext).
  exists turns. split; [exact Hturns | exact Htext].
Defined.

Lemma processQuery_empty_tool_calls_witness :
  message_content Demo.empty_calls = Some "Hello"
  /\ tool_calls Demo.empty_calls = Some []
  /\ fst Demo.run_empty_calls = Ok "".
Proof.
  split; [reflexivity |]. split; [reflexivity |].
  unfold Demo.run_empty_calls.
  rewrite (processQuery_empty_tool_calls (Demo.runtime Demo.empty_calls)
             "hi" Demo.connected {| message := Demo.empty_calls |}
             eq_refl eq_refl).
  reflexivity.
Defined.

(** C2: a first answer with the text Hello and an empty [tool_calls]
    carries no directive, and [processQuery] returns the empty string on
    it, not Hello; with [tool_calls] missing it returns Hello. *)
Theorem processQuery_drops_text_of_empty_tool_calls :
  directives {| message := Demo.empty_calls |} = []
  /\ message_content Demo.empty_calls = Some "Hello"
  /\ fst Demo.run_empty_calls = Ok ""
  /\ fst Demo.run_empty_calls <> Ok "Hello"
  /\ fst Demo.run_plain_answer = Ok "Hello".
Proof.
  repeat split; try reflexivity.
  unfold Demo.run_empty_calls, processQuery. simpl. discriminate.
Qed.

Lemma history_grows_by_tool_messages_witness :
  messages (Demo.returned (initial_frame "") Demo.run_one_turn)
  = [{| role := "user"; content := "add 1 and 2" |};
     {| role := "tool"; content := "3" |}]
  /\ List.length
       (messages (Demo.returned (initial_frame "") Demo.run_one_turn))
     = 2.
Proof.
  split; [reflexivity |].
  destruct (history_grows_by_tool_messages (Demo.runtime Demo.two_calls)
              "add 1 and 2" Demo.connected {| message := Demo.two_calls |} 1
              (Demo.returned (initial_frame "") Demo.run_one_turn)
              (snd Demo.run_one_turn) eq_refl (le_S 1 1 (le_n 1)) eq_refl)
    as (_ & _ & Hlen & _).
  exact Hlen.
Defined.

Lemma chatLoop_quits_on_quit_only_witness :
  fst (chatLoop (Demo.runtime Demo.plain_answer) ["QUIT"; "hi"] Demo.connected)
  = Ok tt
  /\ chat_requests
       (log (snd (chatLoop (Demo.runtime Demo.plain_answer) ["QUIT"; "hi"]
                    Demo.connected)))
     = []
  /\ exists new,
       log (snd (chatLoop_while (Demo.runtime Demo.plain_answer)
                   [" quit "; "QUIT"] Demo.connected))
       = (log Demo.connected
            ++ EvQuestion prompt
            :: first_chat (Demo.runtime Demo.plain_answer) " quit "
                 Demo.connected
            :: new)%list.
Proof.
  destruct (chatLoop_quits_on_quit_only (Demo.runtime Demo.plain_answer)
              "QUIT" ["hi"] Demo.connected) as [Hquit _].
  destruct (Hquit eq_refl) as (_ & _ & Hloop).
  destruct (chatLoop_quits_on_quit_only (Demo.runtime Demo.plain_answer)
              " quit " ["QUIT"] Demo.connected) as [_ Hother].
  split; [now rewrite Hloop |]. split; [now rewrite Hloop |].
  apply Hother. discriminate.
Defined.

(** * Further properties *)

(** ** connectToServer: the spawned command and the failure of listTools *)

Lemma endsWith_js_not_py (path : string) :
  Js.endsWith path ".js" = true -> Js.endsWith path ".py" = false.
Proof.
  unfold Js.endsWith.
  destruct (String.length path <? String.length ".js")%nat eqn:Hlen;
    [discriminate |].
  change (String.length ".py") with (String.length ".js"). rewrite Hlen.
  intros H. apply String.eqb_eq in H. rewrite H. reflexivity.
Qed.

Section ConnectMore.

Context {Args Props : Type}.
Variable rt : Runtime Args Props.

(** [connectToServer] by cases on the suffix and on the answer of
    [listTools]. *)
Lemma connectToServer_cases (path : string) (w : World Args Props) :
  connectToServer rt path w
  = if negb (Js.endsWith path ".js") && negb (Js.endsWith path ".py")
    then (Throw UnsupportedScriptType,
          {| this := this w;
             log := log w ++ [failed_to_connect UnsupportedScriptType] |})
    else
      let t := server_transport rt path in
      match listTools_reply rt (log w ++ [EvConnect t; EvListTools]) with
      | Ok advertised =>
          (Ok tt,
           {| this := {| transport := Some t;
                         tools := map to_ollama_tool advertised |};
              log := log w ++ [EvConnect t; EvListTools;
                               connected_line advertised] |})
      | Throw e =>
          (Throw e,
           {| this := {| transport := Some t; tools := tools (this w) |};
              log := log w ++ [EvConnect t; EvListTools;
                               failed_to_connect e] |})
      | Pending =>
          (Pending,
           {| this := {| transport := Some t; tools := tools (this w) |};
              log := log w ++ [EvConnect t; EvListTools] |})
      end.
Proof.
  unfold connectToServer, try_catch.
  destruct (negb (Js.endsWith path ".js") && negb (Js.endsWith path ".py"));
    [reflexivity |].
  unfold bind, set_transport, set_tools, mcp_connect, mcp_listTools,
    console_log, request, emit, get_this, set_this. simpl.
  rewrite <- app_assoc. simpl. fold (server_transport rt path).
  destruct (listTools_reply rt _) as [advertised | e |]; simpl;
    rewrite <- ?app_assoc; simpl; try reflexivity.
  unfold connected_line. rewrite map_map. reflexivity.
Qed.

Lemma recognized_suffix (path : string) :
  ends_in path ".js" \/ ends_in path ".py" ->
  negb (Js.endsWith path ".js") && negb (Js.endsWith path ".py") = false.
Proof.
  intros [H | H]; apply endsWith_spec in H; rewrite H; simpl;
    [reflexivity | apply andb_false_r].
Qed.

(** X1: for a script with a recognized suffix, [connectToServer] stores
    the transport of that script and starts it exactly once, before it asks
    for the tools, whatever the server then answers; the command is python
    (on win32) or python3 for a .py script and the node binary for a .js
    script, with the script path as only argument. *)
Theorem connectToServer_spawns_interpreter (path : string)
  (w : World Args Props) :
  ends_in path ".js" \/ ends_in path ".py" ->
  transport (this (snd (connectToServer rt path w)))
  = Some (server_transport rt path)
  /\ (exists rest,
        log (snd (connectToServer rt path w))
        = (log w ++ EvConnect (server_transport rt path)
             :: EvListTools :: rest)%list
        /\ spawned rest = [])
  /\ args (server_transport rt path) = [path]
  /\ (ends_in path ".py" ->
      command (server_transport rt path)
      = if platform rt =? "win32" then "python" else "python3")
  /\ (ends_in path ".js" ->
      command (server_transport rt path) = execPath rt).
Proof.
  intros Hsuffix.
  rewrite connectToServer_cases, (recognized_suffix path Hsuffix).
  cbv zeta. split; [| split; [| split; [reflexivity | split]]].
  - destruct (listTools_reply rt _); reflexivity.
  - destruct (listTools_reply rt _); eexists; split; reflexivity.
  - intros Hpy. apply endsWith_spec in Hpy.
    unfold server_transport. simpl. now rewrite Hpy.
  - intros Hjs. apply endsWith_spec in Hjs.
    unfold server_transport. simpl.
    now rewrite (endsWith_js_not_py path Hjs).
Qed.

(** X2: when [listTools] throws, [connectToServer] logs the error and
    throws the same error; the process has been started and the transport
    stored, and the tool descriptors are left as they were. *)
Theorem connectToServer_listTools_failure (path : string)
  (w : World Args Props) (e : Exn) :
  ends_in path ".js" \/ ends_in path ".py" ->
  listTools_reply rt
    (log w ++ [EvConnect (server_transport rt path); EvListTools])
  = Throw e ->
  connectToServer rt path w
  = (Throw e,
     {| this := {| transport := Some (server_transport rt path);
                   tools := tools (this w) |};
        log := log w ++ [EvConnect (server_transport rt path); EvListTools;
                         failed_to_connect e] |}).
Proof.
  intros Hsuffix Hreply.
  rewrite connectToServer_cases, (recognized_suffix path Hsuffix).
  cbv zeta. now rewrite Hreply.
Qed.

(** X3: [connectToServer] returns exactly when the suffix is recognized
    and [listTools] answers; the client then holds the transport and the
    converted tools, which replace the earlier ones, and the console shows
    the advertised names. *)
Theorem connectToServer_returns_iff (path : string)
  (w w' : World Args Props) :
  connectToServer rt path w = (Ok tt, w')
  <-> (ends_in path ".js" \/ ends_in path ".py")
      /\ exists advertised,
           listTools_reply rt
             (log w ++ [EvConnect (server_transport rt path); EvListTools])
           = Ok advertised
           /\ w' = {| this := {| transport := Some (server_transport rt path);
                                 tools := map to_ollama_tool advertised |};
                      log := log w ++ [EvConnect (server_transport rt path);
                                       EvListTools;
                                       connected_line advertised] |}.
Proof.
  rewrite connectToServer_cases. split.
  - destruct (negb (Js.endsWith path ".js") && negb (Js.endsWith path ".py"))
      eqn:Hgate; [discriminate |].
    cbv zeta. intros Hrun. split.
    + apply andb_false_iff in Hgate.
      destruct Hgate as [Hs | Hs]; apply negb_false_iff in Hs;
        apply endsWith_spec in Hs; auto.
    + destruct (listTools_reply rt _) as [advertised | e |];
        try discriminate.
      injection Hrun as <-. eauto.
  - intros (Hsuffix & advertised & Hreply & ->).
    rewrite (recognized_suffix path Hsuffix). cbv zeta.
    now rewrite Hreply.
Qed.

End ConnectMore.

Lemma connectToServer_spawns_interpreter_witness :
  transport (this (snd (connectToServer Scenario.broken_server "tools.py"
                          Demo.start)))
  = Some {| command := "python"; args := ["tools.py"] |}.
Proof.
  destruct (connectToServer_spawns_interpreter Scenario.broken_server
              "tools.py" Demo.start) as (Htransport & _).
  - right. exists "tools". reflexivity.
  - rewrite Htransport. reflexivity.
Defined.

Lemma connectToServer_listTools_failure_witness :
  fst (connectToServer Scenario.broken_server "server.js" Demo.start)
  = Throw (Error "spawn failed")
  /\ tools (this (snd (connectToServer Scenario.broken_server "server.js"
                         Demo.start)))
     = [].
Proof.
  rewrite (connectToServer_listTools_failure Scenario.broken_server
             "server.js" Demo.start (Error "spawn failed")).
  - split; reflexivity.
  - left. exists "server". reflexivity.
  - reflexivity.
Defined.

Lemma connectToServer_returns_iff_witness :
  ends_in "server.js" ".js" \/ ends_in "server.js" ".py".
Proof.
  apply (proj1 (connectToServer_returns_iff (Demo.runtime Demo.two_calls)
                  "server.js" Demo.start Demo.connected)).
  reflexivity.
Defined.

(** ** processQuery: failures *)

Lemma item_text_outcome (item : ContentItem) :
  (exists v, item_text item = Ok v /\ ~ lacks_resource item)
  \/ (item_text item = Throw missing_data /\ lacks_resource item).
Proof.
  unfold item_text, lacks_resource.
  destruct (String.eqb_spec (type item) "text") as [Htext | _].
  - left. eexists. split; [reflexivity |]. rewrite Htext.
    intros [H _]. discriminate.
  - destruct (String.eqb_spec (type item) "resource") as [Hres | Hother].
    + destruct (resource item) as [r |].
      * left. eexists. split; [reflexivity |]. intros [_ H]. discriminate.
      * right. split; [reflexivity | split; [exact Hres | reflexivity]].
    + left. eexists. split; [reflexivity |]. intros [H _]. contradiction.
Qed.

Lemma flatten_malformed (items : list ContentItem) :
  Exists lacks_resource items -> flatten items = Throw missing_data.
Proof.
  intros Hbad. unfold flatten.
  assert (Hmap : Array_map item_text items = Throw missing_data).
  { induction items as [| item rest IH]; [inversion Hbad |].
    simpl.
    destruct (item_text_outcome item) as [(v & -> & Hgood) | [-> _]];
      [| reflexivity].
    rewrite IH; [reflexivity |].
    inversion Hbad; subst; [contradiction | assumption]. }
  now rewrite Hmap.
Qed.

Section QueryFailures.

Context {Args Props : Type}.
Variable rt : Runtime Args Props.

Lemma run_log_assoc (query : string) (w : World Args Props)
  (completed : list Turn) :
  ((log w ++ [first_chat rt query w])
     ++ turn_events rt [user_message query] completed)%list
  = run_log rt query w completed.
Proof. unfold run_log. now rewrite <- app_assoc. Qed.

(** The run up to the directive that follows completed turns. *)
Lemma processQuery_frame_reaches (query : string) (w : World Args Props)
  (response : ChatResponse Args) (completed : list Turn)
  (d : ToolCall Args) (rest : list (ToolCall Args)) :
  chat_reply rt (log w ++ [first_chat rt query w]) = Ok response ->
  tool_calls (message response)
  = Some (map turn_call completed ++ d :: rest)%list ->
  answered rt (log w ++ [first_chat rt query w]) [user_message query]
    completed ->
  processQuery_frame rt query w
  = bind (call_body rt d (after_turns rt (initial_frame query) completed))
      (for_of rt rest)
      {| this := this w; log := run_log rt query w completed |}.
Proof.
  intros Hreply Hcalls Hans.
  rewrite processQuery_frame_unfold, Hreply, Hcalls, for_of_app.
  unfold bind at 1. rewrite for_of_answered by exact Hans.
  simpl. rewrite run_log_assoc. reflexivity.
Qed.

(** X4: when the server rejects the call of a directive, [processQuery]
    throws that error at once: the directives after it are not
    dispatched, no follow-up request is made for it, and the entries
    collected in the earlier turns are not returned. *)
Theorem processQuery_tool_failure (query : string) (w : World Args Props)
  (response : ChatResponse Args) (completed : list Turn)
  (d : ToolCall Args) (rest : list (ToolCall Args)) (e : Exn) :
  chat_reply rt (log w ++ [first_chat rt query w]) = Ok response ->
  tool_calls (message response)
  = Some (map turn_call completed ++ d :: rest)%list ->
  answered rt (log w ++ [first_chat rt query w]) [user_message query]
    completed ->
  callTool_reply rt (run_log rt query w completed ++ [call_event d])
  = Throw e ->
  processQuery rt query w
  = (Throw e,
     {| this := this w;
        log := run_log rt query w completed ++ [call_event d] |}).
Proof.
  intros Hreply Hcalls Hans Hfail.
  rewrite processQuery_unfold,
    (processQuery_frame_reaches query w response completed d rest)
    by assumption.
  unfold call_event in Hfail.
  unfold call_body, mcp_callTool, request, bind. simpl.
  now rewrite Hfail.
Qed.

(** X5: when the result of a tool has a resource item without its
    resource object, [processQuery] throws a TypeError after the call of
    the tool: no tool message is added, no follow-up request is made and
    the remaining directives are not dispatched. *)
Theorem processQuery_malformed_result (query : string)
  (w : World Args Props) (response : ChatResponse Args)
  (completed : list Turn) (d : ToolCall Args)
  (rest : list (ToolCall Args)) (result : CallToolResult) :
  chat_reply rt (log w ++ [first_chat rt query w]) = Ok response ->
  tool_calls (message response)
  = Some (map turn_call completed ++ d :: rest)%list ->
  answered rt (log w ++ [first_chat rt query w]) [user_message query]
    completed ->
  callTool_reply rt (run_log rt query w completed ++ [call_event d])
  = Ok result ->
  Exists lacks_resource (result_content result) ->
  processQuery rt query w
  = (Throw missing_data,
     {| this := this w;
        log := run_log rt query w completed ++ [call_event d] |}).
Proof.
  intros Hreply Hcalls Hans Hresult Hbad.
  rewrite processQuery_unfold,
    (processQuery_frame_reaches query w response completed d rest)
    by assumption.
  unfold call_event in Hresult.
  unfold call_body, mcp_callTool, request, lift, bind. simpl.
  now rewrite Hresult, (flatten_malformed _ Hbad).
Qed.

(** X6: when the model fails on the follow-up request of a turn,
    [processQuery] throws that error after the tool was called and a
    message of role tool with its flattened result was added to the
    messages of the request; the remaining directives are not
    dispatched. *)
Theorem processQuery_follow_up_failure (query : string)
  (w : World Args Props) (response : ChatResponse Args)
  (completed : list Turn) (d : ToolCall Args)
  (rest : list (ToolCall Args)) (result : CallToolResult)
  (flattened : string) (e : Exn) :
  let history :=
    ({| role := "user"; content := query |}
       :: map (fun t => {| role := "tool"; content := turn_blob t |})
            completed
       ++ [{| role := "tool"; content := flattened |}])%list in
  let turn :=
    [EvCallTool (name (function d)) (arguments (function d));
     EvChat {| req_model := OLLAMA_MODEL rt; req_messages := history;
               req_stream := false; req_tools := None |}] in
  chat_reply rt (log w ++ [first_chat rt query w]) = Ok response ->
  tool_calls (message response)
  = Some (map turn_call completed ++ d :: rest)%list ->
  answered rt (log w ++ [first_chat rt query w]) [user_message query]
    completed ->
  callTool_reply rt
    (run_log rt query w completed
       ++ [EvCallTool (name (function d)) (arguments (function d))])
  = Ok result ->
  flatten (result_content result) = Ok flattened ->
  chat_reply rt (run_log rt query w completed ++ turn) = Throw e ->
  processQuery rt query w
  = (Throw e,
     {| this := this w; log := run_log rt query w completed ++ turn |}).
Proof.
  intros history turn Hreply Hcalls Hans Hresult Hflat Hfail.
  rewrite processQuery_unfold,
    (processQuery_frame_reaches query w response completed d rest)
    by assumption.
  subst turn history.
  unfold call_body, mcp_callTool, ollama_chat, request, lift, bind. simpl.
  rewrite Hresult, Hflat, <- app_assoc. simpl.
  match goal with
  | |- context [chat_reply rt ?seen] =>
      assert (Hseen : chat_reply rt seen = Throw e) by exact Hfail;
      rewrite Hseen
  end.
  reflexivity.
Qed.

End QueryFailures.

Lemma processQuery_tool_failure_witness :
  fst (processQuery (Demo.runtime Scenario.three_calls) "q" Demo.connected)
  = Throw (Error "Unknown tool")
  /\ tool_invocations
       (log (snd (processQuery (Demo.runtime Scenario.three_calls) "q"
                    Demo.connected)))
     = [("add", Some [("a", 1); ("b", 2)]); ("mul", Some [("a", 2)])].
Proof.
  rewrite (processQuery_tool_failure (Demo.runtime Scenario.three_calls)
             "q" Demo.connected {| message := Scenario.three_calls |}
             [Scenario.add_turn] Scenario.mul_call [Demo.read_call]
             (Error "Unknown tool")).
  - split; reflexivity.
  - reflexivity.
  - reflexivity.
  - simpl. repeat split; reflexivity.
  - reflexivity.
Defined.

Lemma processQuery_malformed_result_witness :
  fst (processQuery Scenario.broken_server "q" Demo.connected)
  = Throw missing_data
  /\ List.length
       (chat_requests
          (log (snd (processQuery Scenario.broken_server "q"
                       Demo.connected))))
     = 1.
Proof.
  rewrite (processQuery_malformed_result Scenario.broken_server "q"
             Demo.connected {| message := Demo.two_calls |} []
             Demo.add_call [Demo.read_call]
             {| result_content := [Scenario.bad_item] |}).
  - split; reflexivity.
  - reflexivity.
  - reflexivity.
  - exact I.
  - reflexivity.
  - constructor. split; reflexivity.
Defined.

Lemma processQuery_follow_up_failure_witness :
  fst (processQuery Scenario.failing_model "q" Demo.connected)
  = Throw (Error "model unavailable")
  /\ tool_invocations
       (log (snd (processQuery Scenario.failing_model "q" Demo.connected)))
     = [("add", Some [("a", 1); ("b", 2)])]
  /\ map req_messages
       (chat_requests
          (log (snd (processQuery Scenario.failing_model "q"
                       Demo.connected))))
     = [[{| role := "user"; content := "q" |}];
        [{| role := "user"; content := "q" |};
         {| role := "tool"; content := "3" |}]].
Proof.
  rewrite (processQuery_follow_up_failure Scenario.failing_model "q"
             Demo.connected {| message := Demo.two_calls |} []
             Demo.add_call [Demo.read_call]
             {| result_content := [Demo.text_item "3"] |} "3"
             (Error "model unavailable")).
  - repeat split; reflexivity.
  - reflexivity.
  - reflexivity.
  - exact I.
  - reflexivity.
  - reflexivity.
  - reflexivity.
Defined.

(** ** processQuery: what it sends, and to whom *)

Section QueryEvents.

Context {Args Props : Type}.
Variable rt : Runtime Args Props.

Lemma call_body_events (d : ToolCall Args) (fr : Frame)
  (w : World Args Props) :
  exists more,
    log (snd (call_body rt d fr w)) = (log w ++ call_event d :: more)%list
    /\ Forall (query_event rt) (call_event d :: more).
Proof.
  unfold call_body, mcp_callTool, ollama_chat, request, lift, ret, bind.
  simpl.
  destruct (callTool_reply rt _) as [result | e |]; simpl;
    try (exists []; split; [reflexivity | repeat constructor]).
  destruct (flatten (result_content result)) as [flattened | e |]; simpl;
    try (exists []; split; [reflexivity | repeat constructor]).
  rewrite <- app_assoc. simpl.
  destruct (chat_reply rt _) as [response | e |]; simpl;
    (eexists; split; [reflexivity | repeat constructor]).
Qed.

Lemma for_of_events (calls : list (ToolCall Args)) :
  forall (fr : Frame) (w : World Args Props),
    exists new,
      log (snd (for_of rt calls fr w)) = (log w ++ new)%list
      /\ Forall (query_event rt) new.
Proof.
  induction calls as [| d rest IH]; intros fr w.
  - exists []. simpl. rewrite app_nil_r. split; [reflexivity | constructor].
  - simpl. unfold bind.
    destruct (call_body_events d fr w) as (more & Hlog & Hmore).
    destruct (call_body rt d fr w) as [[fr1 | e |] w1]; simpl in *;
      try (eexists; split; [exact Hlog | exact Hmore]).
    destruct (IH fr1 w1) as (new & Hlog' & Hnew).
    exists ((call_event d :: more) ++ new)%list. split.
    + rewrite Hlog', Hlog, <- app_assoc. reflexivity.
    + apply Forall_app. split; assumption.
Qed.

Lemma query_events_quiet (evs : list (Event Args Props)) :
  Forall (query_event rt) evs -> spawned evs = [] /\ closes evs = 0.
Proof.
  induction 1 as [| ev evs Hev _ [IHs IHc]]; [split; reflexivity |].
  destruct ev; simpl in *; try contradiction; split; assumption.
Qed.

Lemma processQuery_events (query : string) (w : World Args Props) :
  exists new,
    log (snd (processQuery rt query w)) = (log w ++ new)%list
    /\ Forall (query_event rt) new.
Proof.
  rewrite processQuery_unfold.
  assert (Hframe : exists new,
             log (snd (processQuery_frame rt query w))
             = (log w ++ new)%list
             /\ Forall (query_event rt) new).
  { rewrite processQuery_frame_unfold.
    assert (Hfirst : Forall (query_event rt) [first_chat rt query w]).
    { repeat constructor. }
    destruct (chat_reply rt _) as [response | e |];
      try (eexists; split; [reflexivity | exact Hfirst]).
    destruct (tool_calls (message response)) as [calls |];
      try (eexists; split; [reflexivity | exact Hfirst]).
    destruct (for_of_events calls (initial_frame query)
                (after_first_chat rt query w)) as (new & Hlog & Hnew).
    exists (first_chat rt query w :: new). split.
    - rewrite Hlog. simpl. now rewrite <- app_assoc.
    - constructor; [repeat constructor | exact Hnew]. }
  destruct (processQuery_frame rt query w) as [[fr | e |] w'];
    exact Hframe.
Qed.

(** X7: whatever its outcome, [processQuery] only calls tools and sends
    chat requests (it writes nothing to the console and starts or closes
    nothing), and every chat request it sends names the configured model
    and has streaming off. *)
Theorem processQuery_only_query_events (query : string)
  (w : World Args Props) :
  exists new,
    log (snd (processQuery rt query w)) = (log w ++ new)%list
    /\ Forall (query_event rt) new
    /\ spawned new = []
    /\ closes new = 0.
Proof.
  destruct (processQuery_events query w) as (new & Hlog & Hnew).
  destruct (query_events_quiet new Hnew) as [Hs Hc].
  exists new. repeat split; assumption.
Qed.

(** X8: a query does not see the previous one: the first request of a
    second [processQuery] carries one message, of role user and with the
    second query as content, and the [tools] key with the same tool
    descriptors, whatever the first query did. *)
Theorem processQuery_restarts_history (query1 query2 : string)
  (w : World Args Props) :
  exists rest,
    log (snd (processQuery rt query2 (snd (processQuery rt query1 w))))
    = (log (snd (processQuery rt query1 w))
         ++ EvChat {| req_model := OLLAMA_MODEL rt;
                      req_messages :=
                        [{| role := "user"; content := query2 |}];
                      req_stream := false;
                      req_tools := Some (tools (this w)) |}
         :: rest)%list.
Proof.
  destruct (processQuery_any rt query1 w) as (Hthis & _).
  destruct (processQuery_any rt query2 (snd (processQuery rt query1 w)))
    as (_ & rest & Hlog & _).
  exists rest. rewrite Hlog. unfold first_chat. rewrite Hthis.
  reflexivity.
Qed.

(** X9: a directive is dispatched to the server as it is, whether its
    name is among the stored descriptors or not: once the turns before it
    are completed, its call is the next event. *)
Theorem processQuery_dispatches_unchecked (query : string)
  (w : World Args Props) (response : ChatResponse Args)
  (completed : list Turn) (d : ToolCall Args)
  (rest : list (ToolCall Args)) :
  chat_reply rt (log w ++ [first_chat rt query w]) = Ok response ->
  tool_calls (message response)
  = Some (map turn_call completed ++ d :: rest)%list ->
  answered rt (log w ++ [first_chat rt query w]) [user_message query]
    completed ->
  exists more,
    log (snd (processQuery rt query w))
    = (run_log rt query w completed
         ++ EvCallTool (name (function d)) (arguments (function d))
         :: more)%list.
Proof.
  intros Hreply Hcalls Hans.
  rewrite processQuery_unfold,
    (processQuery_frame_reaches rt query w response completed d rest)
    by assumption.
  unfold bind.
  match goal with
  | |- context [call_body rt d ?fr ?w1] =>
      destruct (call_body_events d fr w1) as (more & Hlog & _);
      destruct (call_body rt d fr w1) as [[fr1 | e |] w2]
  end; simpl in Hlog;
    try (exists more; simpl; exact Hlog).
  destruct (for_of_frame rt rest fr1 w2) as (_ & new & Hlog' & _).
  destruct (for_of rt rest fr1 w2) as [[fr | e |] w']; simpl in *;
    exists (more ++ new)%list; rewrite Hlog', Hlog, <- !app_assoc;
    reflexivity.
Qed.

End QueryEvents.

Lemma processQuery_dispatches_unchecked_witness :
  ~ In "mul"
      (map (fun tool => tool_name (tool_function tool))
         (tools (this Demo.connected)))
  /\ tool_invocations
       (log (snd (processQuery (Demo.runtime Scenario.unknown_call) "q"
                    Demo.connected)))
     = [("mul", Some [("a", 2)])].
Proof.
  split.
  - simpl. intros [H | [H | []]]; discriminate.
  - destruct (processQuery_dispatches_unchecked
                (Demo.runtime Scenario.unknown_call) "q" Demo.connected
                {| message := Scenario.unknown_call |} []
                Scenario.mul_call [] eq_refl eq_refl I) as (more & Hlog).
    reflexivity.
Defined.

(** ** chatLoop: the turns, the end of the loop *)

Lemma lower_ascii_letter (c : ascii) :
  (Js.lower_ascii c = "q"%char -> c = "q"%char \/ c = "Q"%char)
  /\ (Js.lower_ascii c = "u"%char -> c = "u"%char \/ c = "U"%char)
  /\ (Js.lower_ascii c = "i"%char -> c = "i"%char \/ c = "I"%char)
  /\ (Js.lower_ascii c = "t"%char -> c = "t"%char \/ c = "T"%char).
Proof.
  destruct c as [[] [] [] [] [] [] [] []]; vm_compute;
    repeat split; intros H; try discriminate H; auto.
Qed.

(** X10: the lines that end the loop are the sixteen spellings of quit in
    lower and upper case letters, and no other line: a line with a space
    before or after, or with any other character, is sent to the model. *)
Theorem quits_spellings (message : string) :
  quits message = true <-> In message quit_spellings.
Proof.
  unfold quits. rewrite String.eqb_eq. split.
  - destruct message as [| c1 [| c2 [| c3 [| c4 [| c5 tail]]]]];
      simpl; try discriminate.
    intros H. injection H as H1 H2 H3 H4.
    apply (proj1 (lower_ascii_letter c1)) in H1.
    apply (proj1 (proj2 (lower_ascii_letter c2))) in H2.
    apply (proj1 (proj2 (proj2 (lower_ascii_letter c3)))) in H3.
    apply (proj2 (proj2 (proj2 (lower_ascii_letter c4)))) in H4.
    destruct H1 as [-> | ->], H2 as [-> | ->], H3 as [-> | ->],
      H4 as [-> | ->]; vm_compute; tauto.
  - intros H. vm_compute in H.
    repeat (destruct H as [<- | H]; [reflexivity |]). contradiction.
Qed.

Section ChatLoop.

Context {Args Props : Type}.
Variable rt : Runtime Args Props.

Lemma query_turn_cases (message : string) (w : World Args Props) :
  query_turn rt message w
  = match processQuery rt message w with
    | (Ok response, w2) =>
        (Ok tt, {| this := this w2;
                   log := log w2 ++ [response_line response] |})
    | (Throw err, w2) =>
        (Ok tt, {| this := this w2; log := log w2 ++ [error_line err] |})
    | (Pending, w2) => (Pending, w2)
    end.
Proof.
  unfold query_turn, try_catch, bind, console_log, emit.
  destruct (processQuery rt message w) as [[response | err |] w2];
    reflexivity.
Qed.

(** X11: for a line that does not quit, the loop prints the response of
    [processQuery], or the error it threw, and goes on with the next
    line: an error of a query does not end the session. *)
Theorem chatLoop_turn_goes_on (line : string) (rest : list string)
  (w : World Args Props) :
  quits line = false ->
  (forall response w2,
     processQuery rt line (after_question w) = (Ok response, w2) ->
     chatLoop_while rt (line :: rest) w
     = chatLoop_while rt rest
         {| this := this w2; log := log w2 ++ [response_line response] |})
  /\ (forall err w2,
        processQuery rt line (after_question w) = (Throw err, w2) ->
        chatLoop_while rt (line :: rest) w
        = chatLoop_while rt rest
            {| this := this w2; log := log w2 ++ [error_line err] |}).
Proof.
  intros Hline. unfold quits in Hline.
  split; intros x w2 Hrun;
    now rewrite chatLoop_while_cons, Hline, query_turn_cases, Hrun.
Qed.

Lemma chatLoop_while_throws (stdin : list string) :
  forall (w : World Args Props) (e : Exn),
    fst (chatLoop_while rt stdin w) = Throw e ->
    at_end_of_input rt = Rejects e /\ existsb quits stdin = false.
Proof.
  induction stdin as [| line rest IH]; intros w e.
  - simpl. rewrite question_at_end_cases. simpl.
    destruct (at_end_of_input rt) as [e' |]; [| discriminate].
    intros H. injection H as <-. split; reflexivity.
  - rewrite chatLoop_while_cons. simpl existsb. unfold quits at 1.
    destruct (Js.toLowerCase line =? "quit"); [simpl; discriminate |].
    rewrite query_turn_cases.
    destruct (processQuery rt line (after_question w))
      as [[response | err |] w2]; try apply IH.
    simpl. discriminate.
Qed.

(** X12: no error of a query leaves [chatLoop]: when it throws, the error
    is the rejection of [rl.question] at the end of an input in which no
    line quits, and the readline interface has been closed before the
    error leaves. *)
Theorem chatLoop_throws_only_at_end (stdin : list string)
  (w : World Args Props) (e : Exn) :
  fst (chatLoop rt stdin w) = Throw e ->
  at_end_of_input rt = Rejects e
  /\ existsb quits stdin = false
  /\ exists before,
       log (snd (chatLoop rt stdin w))
       = (log w ++ before ++ [EvRlClose])%list.
Proof.
  unfold chatLoop, try_finally, bind, console_log, emit. simpl.
  match goal with
  | |- context [chatLoop_while rt stdin ?w1] =>
      pose proof (chatLoop_while_throws stdin w1) as Hloop;
      destruct (chatLoop_while_any rt stdin w1) as (_ & new & Hlog);
      destruct (chatLoop_while rt stdin w1) as [[[] | e' |] w2]
  end; simpl in *; try discriminate.
  intros H. injection H as <-.
  destruct (Hloop e' eq_refl) as [Hend Hquit].
  split; [exact Hend |]. split; [exact Hquit |].
  exists (EvCreateInterface :: started ++ new)%list.
  rewrite Hlog, <- !app_assoc. reflexivity.
Qed.

(** With collaborators that settle, [processQuery] settles. *)
Lemma processQuery_settles (Hrt : settles rt) (query : string)
  (w : World Args Props) :
  fst (processQuery rt query w) <> Pending.
Proof.
  destruct Hrt as [Hchat Htool].
  assert (Hflat : forall items, flatten items <> Pending).
  { intros items. unfold flatten.
    assert (Hmap : Array_map item_text items <> Pending).
    { induction items as [| item rest IH]; simpl; [discriminate |].
      destruct (item_text_outcome item) as [(v & -> & _) | [-> _]];
        [| discriminate].
      destruct (Array_map item_text rest); try discriminate.
      contradiction. }
    destruct (Array_map item_text items); try discriminate.
    contradiction. }
  assert (Hturn : forall d fr w1, fst (call_body rt d fr w1) <> Pending).
  { intros d fr w1.
    unfold call_body, mcp_callTool, ollama_chat, request, lift, ret, bind.
    simpl.
    destruct (callTool_reply rt _) as [result | e |] eqn:Hr; simpl;
      try discriminate; [| now apply Htool in Hr].
    destruct (flatten (result_content result)) as [flattened | e |] eqn:Hf;
      simpl; try discriminate; [| now apply Hflat in Hf].
    destruct (chat_reply rt _) as [response | e |] eqn:Hc; simpl;
      try discriminate. now apply Hchat in Hc. }
  assert (Hloop : forall calls fr w1, fst (for_of rt calls fr w1) <> Pending).
  { induction calls as [| d rest IH]; intros fr w1; simpl;
      [discriminate |].
    unfold bind. specialize (Hturn d fr w1).
    destruct (call_body rt d fr w1) as [[fr1 | e |] w2]; simpl in *;
      [apply IH | discriminate | contradiction]. }
  rewrite processQuery_unfold, processQuery_frame_unfold.
  destruct (chat_reply rt _) as [response | e |] eqn:Hc; simpl;
    try discriminate; [| now apply Hchat in Hc].
  destruct (tool_calls (message response)) as [calls |];
    [| simpl; discriminate].
  specialize (Hloop calls (initial_frame query)
                (after_first_chat rt query w)).
  destruct (for_of rt calls (initial_frame query)
              (after_first_chat rt query w)) as [[fr | e |] w'];
    simpl in *; [discriminate | discriminate | contradiction].
Qed.

Lemma chatLoop_while_ends (Hrt : settles rt) (stdin : list string) :
  existsb quits stdin = true ->
  forall w : World Args Props,
    exists new,
      chatLoop_while rt stdin w
      = (Ok tt, {| this := this w; log := log w ++ new |}).
Proof.
  induction stdin as [| line rest IH]; intros Hquit w; [discriminate |].
  rewrite chatLoop_while_cons. simpl in Hquit. unfold quits at 1 in Hquit.
  destruct (Js.toLowerCase line =? "quit").
  - eexists. reflexivity.
  - simpl in Hquit. rewrite query_turn_cases.
    destruct (processQuery_any rt line (after_question w))
      as (Hthis & more & Hlog & _).
    pose proof (processQuery_settles Hrt line (after_question w)) as Hset.
    destruct (processQuery rt line (after_question w))
      as [[response | err |] w2]; simpl in *; [| | contradiction].
    + destruct (IH Hquit {| this := this w2;
                            log := log w2 ++ [response_line response] |})
        as (new & ->).
      eexists. simpl. rewrite Hthis, Hlog, <- !app_assoc. reflexivity.
    + destruct (IH Hquit {| this := this w2;
                            log := log w2 ++ [error_line err] |})
        as (new & ->).
      eexists. simpl. rewrite Hthis, Hlog, <- !app_assoc. reflexivity.
Qed.

Lemma chatLoop_ends (Hrt : settles rt) (stdin : list string)
  (w : World Args Props) :
  existsb quits stdin = true ->
  exists turns,
    chatLoop rt stdin w
    = (Ok tt,
       {| this := this w;
          log := log w ++ EvCreateInterface :: turns ++ [EvRlClose] |}).
Proof.
  intros Hquit.
  unfold chatLoop, try_finally, bind, console_log, emit. simpl.
  match goal with
  | |- context [chatLoop_while rt stdin ?w1] =>
      destruct (chatLoop_while_ends Hrt stdin Hquit w1) as (new & ->)
  end.
  exists (started ++ new)%list. simpl.
  rewrite <- !app_assoc. reflexivity.
Qed.

(** X13: when the collaborators settle and some line of the input quits,
    [chatLoop] returns: the readline interface it created first is closed
    last, and the client's fields are as before. *)
Theorem chatLoop_ends_on_quit (stdin : list string) (w : World Args Props) :
  settles rt ->
  existsb quits stdin = true ->
  exists turns,
    chatLoop rt stdin w
    = (Ok tt,
       {| this := this w;
          log := log w ++ EvCreateInterface :: turns ++ [EvRlClose] |}).
Proof.
  intros Hrt Hquit. exact (chatLoop_ends Hrt stdin w Hquit).
Qed.

Lemma chatLoop_while_after_quit (before : list string) (line : string)
  (after : list string) :
  quits line = true ->
  forall w : World Args Props,
    chatLoop_while rt (before ++ line :: after) w
    = chatLoop_while rt (before ++ [line]) w.
Proof.
  intros Hline. unfold quits in Hline.
  induction before as [| l rest IH]; intros w.
  - simpl app. now rewrite !chatLoop_while_cons, Hline.
  - simpl app. rewrite !chatLoop_while_cons.
    destruct (Js.toLowerCase l =? "quit"); [reflexivity |].
    destruct (query_turn rt l (after_question w)) as [[[] | e |] w2];
      [apply IH | reflexivity | reflexivity].
Qed.

(** X14: the lines after a line that quits are never read: they change
    neither what [chatLoop] returns nor what it does. *)
Theorem chatLoop_ignores_lines_after_quit (before : list string)
  (line : string) (after : list string) (w : World Args Props) :
  quits line = true ->
  chatLoop rt (before ++ line :: after) w
  = chatLoop rt (before ++ [line]) w.
Proof.
  intros Hline. unfold chatLoop, try_finally, bind. simpl.
  now rewrite (chatLoop_while_after_quit before line after Hline).
Qed.

End ChatLoop.

Lemma chatLoop_throws_only_at_end_witness :
  fst (chatLoop Scenario.failing_model ["q"] Demo.connected)
  = Throw (Error "readline was closed")
  /\ at_end_of_input Scenario.failing_model
     = Rejects (Error "readline was closed")
  /\ In (error_line (Error "model unavailable"))
       (log (snd (chatLoop Scenario.failing_model ["q"] Demo.connected))).
Proof.
  split; [reflexivity |].
  destruct (chatLoop_throws_only_at_end Scenario.failing_model ["q"]
              Demo.connected (Error "readline was closed") eq_refl)
    as (Hend & _ & _).
  split; [exact Hend |]. vm_compute. tauto.
Defined.

Lemma quits_spellings_witness : quits "QuIt" = true.
Proof.
  apply (proj2 (quits_spellings "QuIt")). vm_compute. tauto.
Defined.

Lemma chatLoop_turn_goes_on_witness :
  fst (chatLoop_while (Demo.runtime Scenario.three_calls) ["q"; "quit"]
         Demo.connected)
  = Ok tt
  /\ In (error_line (Error "Unknown tool"))
       (log (snd (chatLoop_while (Demo.runtime Scenario.three_calls)
                    ["q"; "quit"] Demo.connected))).
Proof.
  destruct (chatLoop_turn_goes_on (Demo.runtime Scenario.three_calls) "q"
              ["quit"] Demo.connected eq_refl) as [_ Herr].
  rewrite (Herr (Error "Unknown tool")
             (snd (processQuery (Demo.runtime Scenario.three_calls) "q"
                     (after_question Demo.connected)))
             eq_refl).
  split; [reflexivity |]. vm_compute. tauto.
Defined.

Lemma demo_settles (first : ResponseMessage Demo.Args) :
  settles (Demo.runtime first).
Proof.
  split; intros seen; simpl.
  - unfold Demo.chat_script.
    destruct (List.length (chat_requests seen)) as [| [| [| n]]];
      discriminate.
  - unfold Demo.callTool_script.
    destruct (last seen EvListTools); try discriminate.
    destruct (tool =? "add"); [discriminate |].
    destruct (tool =? "read"); discriminate.
Qed.

Lemma chatLoop_ends_on_quit_witness :
  fst (chatLoop (Demo.runtime Demo.plain_answer) ["hi"; "Quit"; "again"]
         Demo.connected)
  = Ok tt.
Proof.
  destruct (chatLoop_ends_on_quit (Demo.runtime Demo.plain_answer)
              ["hi"; "Quit"; "again"] Demo.connected
              (demo_settles Demo.plain_answer) eq_refl) as (turns & ->).
  reflexivity.
Defined.

Lemma chatLoop_ignores_lines_after_quit_witness :
  chatLoop (Demo.runtime Demo.plain_answer) ["hi"; "QUIT"; "more"; "lines"]
    Demo.connected
  = chatLoop (Demo.runtime Demo.plain_answer) ["hi"; "QUIT"] Demo.connected.
Proof.
  exact (chatLoop_ignores_lines_after_quit (Demo.runtime Demo.plain_answer)
           ["hi"] "QUIT" ["more"; "lines"] Demo.connected eq_refl).
Defined.

(** ** main *)

Section MainProperties.

Context {Args Props : Type}.
Variable rt : Runtime Args Props.
Variable close_reply : list (Event Args Props) -> Res unit.

Lemma spawned_app (a b : list (Event Args Props)) :
  spawned (a ++ b) = (spawned a ++ spawned b)%list.
Proof.
  induction a as [| e a IH]; [reflexivity |].
  destruct e; simpl; now rewrite ?IH.
Qed.

Lemma closes_app (a b : list (Event Args Props)) :
  closes (a ++ b) = closes a + closes b.
Proof.
  induction a as [| e a IH]; [reflexivity |].
  destruct e; simpl; now rewrite ?IH.
Qed.

(** The events of [connectToServer]: at most one process, no close. *)
Lemma connectToServer_quiet (path : string) (w : World Args Props) :
  exists new,
    log (snd (connectToServer rt path w)) = (log w ++ new)%list
    /\ List.length (spawned new) <= 1
    /\ closes new = 0.
Proof.
  rewrite connectToServer_cases.
  destruct (negb (Js.endsWith path ".js") && negb (Js.endsWith path ".py")).
  - eexists. split; [reflexivity |]. simpl. split; [lia | reflexivity].
  - cbv zeta. destruct (listTools_reply rt _); eexists;
      (split; [reflexivity |]); simpl; split; (lia || reflexivity).
Qed.

(** The events of the loop: no process, no close. *)
Lemma chatLoop_while_quiet (stdin : list string) :
  forall w : World Args Props,
    exists new,
      log (snd (chatLoop_while rt stdin w)) = (log w ++ new)%list
      /\ spawned new = []
      /\ closes new = 0.
Proof.
  induction stdin as [| line rest IH]; intros w.
  - simpl. rewrite question_at_end_cases. simpl.
    eexists. split; [reflexivity |]. split; reflexivity.
  - rewrite chatLoop_while_cons.
    destruct (Js.toLowerCase line =? "quit").
    + eexists. split; [reflexivity |]. split; reflexivity.
    + rewrite query_turn_cases.
      destruct (processQuery_events rt line (after_question w))
        as (new & Hlog & Hnew).
      destruct (query_events_quiet rt new Hnew) as [Hs Hc].
      destruct (processQuery rt line (after_question w))
        as [[response | err |] w2]; simpl in Hlog.
      * destruct (IH {| this := this w2;
                        log := log w2 ++ [response_line response] |})
          as (new' & Hlog' & Hs' & Hc').
        exists ((EvQuestion prompt :: new)
                  ++ response_line response :: new')%list.
        split; [| split].
        -- rewrite Hlog'. simpl. rewrite Hlog. simpl.
           rewrite <- !app_assoc. reflexivity.
        -- rewrite spawned_app. simpl. now rewrite Hs, Hs'.
        -- rewrite closes_app. simpl. now rewrite Hc, Hc'.
      * destruct (IH {| this := this w2;
                        log := log w2 ++ [error_line err] |})
          as (new' & Hlog' & Hs' & Hc').
        exists ((EvQuestion prompt :: new)
                  ++ error_line err :: new')%list.
        split; [| split].
        -- rewrite Hlog'. simpl. rewrite Hlog. simpl.
           rewrite <- !app_assoc. reflexivity.
        -- rewrite spawned_app. simpl. now rewrite Hs, Hs'.
        -- rewrite closes_app. simpl. now rewrite Hc, Hc'.
      * exists (EvQuestion prompt :: new). simpl.
        split; [| split; assumption].
        rewrite Hlog. simpl. rewrite <- app_assoc. reflexivity.
Qed.

Lemma chatLoop_quiet (stdin : list string) (w : World Args Props) :
  exists new,
    log (snd (chatLoop rt stdin w)) = (log w ++ new)%list
    /\ spawned new = []
    /\ closes new = 0.
Proof.
  unfold chatLoop, try_finally, bind, console_log, emit. simpl.
  match goal with
  | |- context [chatLoop_while rt stdin ?w1] =>
      destruct (chatLoop_while_quiet stdin w1) as (new & Hlog & Hs & Hc);
      destruct (chatLoop_while rt stdin w1) as [[[] | e |] w2]
  end; simpl in *.
  - exists (EvCreateInterface :: started ++ new ++ [EvRlClose])%list.
    split; [| split].
    + rewrite Hlog, <- !app_assoc. reflexivity.
    + simpl. rewrite spawned_app, Hs. reflexivity.
    + simpl. rewrite closes_app, Hc. reflexivity.
  - exists (EvCreateInterface :: started ++ new ++ [EvRlClose])%list.
    split; [| split].
    + rewrite Hlog, <- !app_assoc. reflexivity.
    + simpl. rewrite spawned_app, Hs. reflexivity.
    + simpl. rewrite closes_app, Hc. reflexivity.
  - exists (EvCreateInterface :: started ++ new)%list.
    split; [| split].
    + rewrite Hlog, <- !app_assoc. reflexivity.
    + simpl. exact Hs.
    + simpl. exact Hc.
Qed.

Lemma main_body_cases (argv stdin : list string) (w : World Args Props) :
  main_body rt argv stdin w
  = match connectToServer rt (nth 2 argv "") w with
    | (Ok _, w1) => chatLoop rt stdin w1
    | (Throw e, w1) => (Throw e, w1)
    | (Pending, w1) => (Pending, w1)
    end.
Proof. reflexivity. Qed.

Lemma main_body_quiet (argv stdin : list string) (w : World Args Props) :
  exists new,
    log (snd (main_body rt argv stdin w)) = (log w ++ new)%list
    /\ List.length (spawned new) <= 1
    /\ closes new = 0.
Proof.
  rewrite main_body_cases.
  destruct (connectToServer_quiet (nth 2 argv "") w)
    as (new & Hlog & Hs & Hc).
  destruct (connectToServer rt (nth 2 argv "") w) as [[[] | e |] w1];
    simpl in Hlog; try (exists new; repeat split; assumption).
  destruct (chatLoop_quiet stdin w1) as (new' & Hlog' & Hs' & Hc').
  exists (new ++ new')%list. split; [| split].
  - now rewrite Hlog', Hlog, app_assoc.
  - rewrite spawned_app, Hs', app_nil_r. exact Hs.
  - rewrite closes_app, Hc, Hc'. reflexivity.
Qed.

(** [main] with a script path, by cases on its [try] block and on the
    answer of [mcp.close]. *)
Lemma main_cases (argv stdin : list string) (w : World Args Props) :
  3 <= List.length argv ->
  main rt close_reply argv stdin w
  = match main_body rt argv stdin {| this := constructor; log := log w |} with
    | (Pending, w1) => (Hung, w1)
    | (_, w1) =>
        let w2 := {| this := this w1; log := log w1 ++ [EvMcpClose] |} in
        match close_reply (log w1 ++ [EvMcpClose]) with
        | Ok _ => (Exited 0, w2)
        | Throw e => (Rejected e, w2)
        | Pending => (Hung, w2)
        end
    end.
Proof.
  intros Hargv. unfold main.
  destruct (Nat.ltb_spec (List.length argv) 3) as [Hlt | _]; [lia |].
  unfold cleanup_awaited, request. simpl.
  destruct (main_body rt argv stdin _) as [[[] | e |] w1]; simpl;
    try reflexivity;
    destruct (close_reply _); reflexivity.
Qed.

(** X15: when [connectToServer] fails, [main] does not start the chat
    loop; it closes the client and, once [mcp.close] has answered, the
    process exits with code 0: the failure shows on the console only. *)
Theorem main_connect_failure_exits_zero (argv stdin : list string)
  (w w1 : World Args Props) (e : Exn) :
  3 <= List.length argv ->
  connectToServer rt (nth 2 argv "") {| this := constructor; log := log w |}
  = (Throw e, w1) ->
  close_reply (log w1 ++ [EvMcpClose]) = Ok tt ->
  main rt close_reply argv stdin w
  = (Exited 0, {| this := this w1; log := log w1 ++ [EvMcpClose] |}).
Proof.
  intros Hargv Hconnect Hclose.
  rewrite (main_cases argv stdin w Hargv), main_body_cases, Hconnect.
  cbv zeta. now rewrite Hclose.
Qed.

(** X16: when the connection succeeds, the collaborators settle and a
    line of the input quits, [main] runs the session and exits with code
    0; the readline interface is closed before the client, and the close
    of the client is the last event. *)
Theorem main_session_exits_zero (argv stdin : list string)
  (w w1 : World Args Props) :
  3 <= List.length argv ->
  settles rt ->
  (forall seen, close_reply seen = Ok tt) ->
  connectToServer rt (nth 2 argv "") {| this := constructor; log := log w |}
  = (Ok tt, w1) ->
  existsb quits stdin = true ->
  exists turns,
    main rt close_reply argv stdin w
    = (Exited 0,
       {| this := this w1;
          log := log w1 ++ EvCreateInterface
                   :: turns ++ [EvRlClose; EvMcpClose] |}).
Proof.
  intros Hargv Hrt Hclose Hconnect Hquit.
  rewrite (main_cases argv stdin w Hargv), main_body_cases, Hconnect.
  destruct (chatLoop_ends rt Hrt stdin w1 Hquit) as (turns & ->).
  cbv zeta. rewrite Hclose. exists turns. simpl.
  rewrite <- !app_assoc. simpl. rewrite <- app_assoc. reflexivity.
Qed.

(** X17: when [mcp.close] throws, [process.exit] is not reached: the
    promise of [main] is rejected with the error of the close, whatever
    the [try] block returned or threw. *)
Theorem main_cleanup_failure (argv stdin : list string)
  (w : World Args Props) (e : Exn) :
  let body :=
    main_body rt argv stdin {| this := constructor; log := log w |} in
  3 <= List.length argv ->
  fst body <> Pending ->
  close_reply (log (snd body) ++ [EvMcpClose]) = Throw e ->
  main rt close_reply argv stdin w
  = (Rejected e,
     {| this := this (snd body); log := log (snd body) ++ [EvMcpClose] |}).
Proof.
  intros body Hargv Hbody Hclose. subst body.
  rewrite (main_cases argv stdin w Hargv).
  destruct (main_body rt argv stdin _) as [[[] | e' |] w1]; simpl in *;
    try contradiction; now rewrite Hclose.
Qed.

(** X18: whatever happens, [main] starts at most one server process and
    closes the client at most once; without a script path it only prints
    the usage line and returns, and with one it closes the client exactly
    once, as its last action, whenever its [try] block settles. *)
Theorem main_closes_once (argv stdin : list string) (w : World Args Props) :
  exists new,
    log (snd (main rt close_reply argv stdin w)) = (log w ++ new)%list
    /\ List.length (spawned new) <= 1
    /\ closes new <= 1
    /\ (List.length argv < 3 ->
        fst (main rt close_reply argv stdin w) = Returned
        /\ new = [EvConsoleLog [LogStr usage]])
    /\ (3 <= List.length argv ->
        fst (main_body rt argv stdin {| this := constructor; log := log w |})
        <> Pending ->
        closes new = 1 /\ exists before, new = (before ++ [EvMcpClose])%list).
Proof.
  destruct (Nat.lt_ge_cases (List.length argv) 3) as [Hlt | Hge].
  - exists [EvConsoleLog [LogStr usage]]. unfold main.
    destruct (Nat.ltb_spec (List.length argv) 3) as [_ | Hge]; [| lia].
    simpl. repeat split; try lia; try reflexivity.
  - rewrite (main_cases argv stdin w Hge).
    destruct (main_body_quiet argv stdin
                {| this := constructor; log := log w |})
      as (new & Hlog & Hs & Hc).
    simpl in Hlog.
    destruct (main_body rt argv stdin _) as [[[] | e |] w1]; simpl in Hlog.
    + exists (new ++ [EvMcpClose])%list. cbv zeta.
      assert (Hhead : (log w1 ++ [EvMcpClose])%list
                      = (log w ++ new ++ [EvMcpClose])%list)
        by now rewrite Hlog, <- app_assoc.
      rewrite spawned_app, closes_app, Hc, app_nil_r. simpl.
      split; [destruct (close_reply _); exact Hhead |].
      repeat split; try lia; try assumption; eauto.
    + exists (new ++ [EvMcpClose])%list. cbv zeta.
      assert (Hhead : (log w1 ++ [EvMcpClose])%list
                      = (log w ++ new ++ [EvMcpClose])%list)
        by now rewrite Hlog, <- app_assoc.
      rewrite spawned_app, closes_app, Hc, app_nil_r. simpl.
      split; [destruct (close_reply _); exact Hhead |].
      repeat split; try lia; try assumption; eauto.
    + exists new. simpl. rewrite Hc.
      repeat split; try lia; try assumption; contradiction.
Qed.

End MainProperties.

Lemma main_connect_failure_exits_zero_witness :
  fst (main Scenario.broken_server Scenario.close_ok
         ["node"; "build/index.js"; "notes.txt"] ["hi"] Demo.start)
  = Exited 0
  /\ log (snd (main Scenario.broken_server Scenario.close_ok
                 ["node"; "build/index.js"; "notes.txt"] ["hi"] Demo.start))
     = [failed_to_connect UnsupportedScriptType; EvMcpClose].
Proof.
  rewrite (main_connect_failure_exits_zero Scenario.broken_server
             Scenario.close_ok ["node"; "build/index.js"; "notes.txt"]
             ["hi"] Demo.start
             (snd (connectToServer Scenario.broken_server "notes.txt"
                     Demo.start))
             UnsupportedScriptType).
  - split; reflexivity.
  - simpl. lia.
  - reflexivity.
  - reflexivity.
Defined.

Lemma main_session_exits_zero_witness :
  fst (main (Demo.runtime Demo.plain_answer) Scenario.close_ok
         Scenario.argv ["hi"; "Quit"] Demo.start)
  = Exited 0.
Proof.
  destruct (main_session_exits_zero (Demo.runtime Demo.plain_answer)
              Scenario.close_ok Scenario.argv ["hi"; "Quit"] Demo.start
              Demo.connected)
    as (turns & ->).
  - simpl. lia.
  - apply demo_settles.
  - reflexivity.
  - reflexivity.
  - reflexivity.
  - reflexivity.
Defined.

Lemma main_cleanup_failure_witness :
  fst (main Scenario.broken_server Scenario.close_fails
         ["node"; "build/index.js"; "notes.txt"] [] Demo.start)
  = Rejected (Error "close failed").
Proof.
  rewrite (main_cleanup_failure Scenario.broken_server Scenario.close_fails
             ["node"; "build/index.js"; "notes.txt"] [] Demo.start
             (Error "close failed")).
  - reflexivity.
  - simpl. lia.
  - discriminate.
  - reflexivity.
Defined.

(** ** Flattening: parts and whole *)

Lemma Array_map_app {A B} (callback : A -> Res B) (a b : list A)
  (xs ys : list B) :
  Array_map callback a = Ok xs ->
  Array_map callback b = Ok ys ->
  Array_map callback (a ++ b) = Ok (xs ++ ys)%list.
Proof.
  revert xs. induction a as [| x a IH]; intros xs Ha Hb; simpl in *.
  - injection Ha as <-. exact Hb.
  - destruct (callback x) as [y | e |]; try discriminate.
    destruct (Array_map callback a) as [zs | e |]; try discriminate.
    injection Ha as <-. now rewrite (IH zs eq_refl Hb).
Qed.

Lemma concat_app (sep : string) (l1 l2 : list string) :
  l1 <> [] -> l2 <> [] ->
  String.concat sep (l1 ++ l2)
  = String.concat sep l1 ++ sep ++ String.concat sep l2.
Proof.
  intros H1 H2. induction l1 as [| x [| y l1] IH]; [contradiction | |].
  - destruct l2 as [| z l2]; [contradiction | reflexivity].
  - change (String.concat sep ((x :: y :: l1) ++ l2))
      with (x ++ sep ++ String.concat sep ((y :: l1) ++ l2)).
    rewrite IH by discriminate.
    change (String.concat sep (x :: y :: l1))
      with (x ++ sep ++ String.concat sep (y :: l1)).
    now rewrite !string_app_assoc.
Qed.

(** X19: the flattening of a result in two non-empty parts is the
    flattenings of the parts with one blank line between them; a result
    without items flattens to the empty string. *)
Theorem flatten_app (items1 items2 : list ContentItem)
  (blob1 blob2 : string) :
  flatten items1 = Ok blob1 ->
  flatten items2 = Ok blob2 ->
  items1 <> [] -> items2 <> [] ->
  flatten (items1 ++ items2) = Ok (blob1 ++ blank_line ++ blob2)
  /\ flatten [] = Ok "".
Proof.
  intros H1 H2 Hne1 Hne2. split; [| reflexivity].
  unfold flatten in *.
  destruct (Array_map item_text items1) as [xs | e |] eqn:Hxs;
    try discriminate.
  destruct (Array_map item_text items2) as [ys | e |] eqn:Hys;
    try discriminate.
  injection H1 as <-. injection H2 as <-.
  rewrite (Array_map_app item_text items1 items2 xs ys Hxs Hys).
  rewrite !Array_join_concat, map_app. f_equal.
  apply concat_app.
  - destruct items1; [contradiction |]. simpl in Hxs.
    destruct (item_text c); try discriminate.
    destruct (Array_map item_text items1); try discriminate.
    injection Hxs as <-. discriminate.
  - destruct items2; [contradiction |]. simpl in Hys.
    destruct (item_text c); try discriminate.
    destruct (Array_map item_text items2); try discriminate.
    injection Hys as <-. discriminate.
Qed.

Lemma flatten_app_witness :
  flatten ([Demo.text_item "3"] ++ Demo.example_items)
  = Ok ("3" ++ blank_line ++ "a" ++ LF ++ LF ++ "b" ++ LF ++ LF).
Proof.
  apply (flatten_app [Demo.text_item "3"] Demo.example_items "3"
           ("a" ++ LF ++ LF ++ "b" ++ LF ++ LF));
    try reflexivity; discriminate.
Defined.

(** ** The run that returns *)

Section Returns.

Context {Args Props : Type}.
Variable rt : Runtime Args Props.

(** X20: when the first answer carries directives and the collaborators
    answer every turn of them, [processQuery] returns: its text is the
    entries of the turns joined with a line feed, the text of the first
    answer is not part of it, and the events are the first request and the
    events of the turns. *)
Theorem processQuery_returns_entries (query : string)
  (w : World Args Props) (response : ChatResponse Args)
  (turns : list Turn) :
  chat_reply rt (log w ++ [first_chat rt query w]) = Ok response ->
  tool_calls (message response) = Some (map turn_call turns) ->
  answered rt (log w ++ [first_chat rt query w]) [user_message query]
    turns ->
  processQuery rt query w
  = (Ok (String.concat LF (flat_map (turn_entries rt) turns)),
     {| this := this w; log := run_log rt query w turns |}).
Proof.
  intros Hreply Hcalls Hans. unfold run_log.
  exact (processQuery_answered rt query w response turns Hreply Hcalls Hans).
Qed.

(** X21: when the first answer has no [tool_calls], [processQuery]
    returns its text, the empty string when the text is missing, after
    that one request: no tool is called and no second request is made. *)
Theorem processQuery_plain_answer (query : string) (w : World Args Props)
  (response : ChatResponse Args) :
  chat_reply rt (log w ++ [first_chat rt query w]) = Ok response ->
  tool_calls (message response) = None ->
  processQuery rt query w
  = (Ok (match message_content (message response) with
         | Some s => s
         | None => ""
         end),
     {| this := this w; log := log w ++ [first_chat rt query w] |}).
Proof.
  intros Hreply Hcalls.
  exact (processQuery_without_tool_calls rt query w response Hreply Hcalls).
Qed.

End Returns.

Lemma processQuery_returns_entries_witness :
  fst Demo.run_two_calls
  = Ok (String.concat LF
          (flat_map (turn_entries (Demo.runtime Demo.two_calls))
             [Scenario.add_turn; Scenario.read_turn])).
Proof.
  unfold Demo.run_two_calls.
  rewrite (processQuery_returns_entries (Demo.runtime Demo.two_calls)
             "add 1 and 2" Demo.connected {| message := Demo.two_calls |}
             [Scenario.add_turn; Scenario.read_turn]).
  - reflexivity.
  - reflexivity.
  - reflexivity.
  - simpl. repeat split; reflexivity.
Defined.

Lemma processQuery_plain_answer_witness :
  fst Demo.run_plain_answer = Ok "Hello"
  /\ List.length (chat_requests (log (snd Demo.run_plain_answer))) = 1.
Proof.
  unfold Demo.run_plain_answer.
  rewrite (processQuery_plain_answer (Demo.runtime Demo.plain_answer)
             "hi" Demo.connected {| message := Demo.plain_answer |}
             eq_refl eq_refl).
  split; reflexivity.
Defined.
